(** * jamulator, package asm6502: instruction selection and IR lowering

    A shallow embedding of the two Go sources of the package:
    the flat encoder ([compileInstruction], [Program.Visit], [ToProgram])
    and the two-pass LLVM lowering ([Compilation], [Program.Compile]).

    Go values are modelled as follows: [int] as [Z], [string] as a byte
    string ([string] of [ascii]), a Go [map] as a [gmap], a slice that is
    only appended to as a [list], a nil-able pointer as an [option], a
    [panic] as the [Panic] outcome. *)

From Stdlib Require Import ZArith NArith Ascii String List.
From stdpp Require Import gmap strings list fin_maps pretty.

Open Scope string_scope.
Open Scope Z_scope.
Open Scope list_scope.

(** ** Outcomes of code that may panic *)

Inductive outcome (A : Type) : Type :=
| Done (a : A)
| Panic (msg : string).
Arguments Done {A} a.
Arguments Panic {A} msg.

Definition obind {A B} (o : outcome A) (k : A -> outcome B) : outcome B :=
  match o with
  | Done a => k a
  | Panic m => Panic m
  end.

(** ** The Go library functions the package calls on strings *)

Module GoStrings.

(** [strings.ToLower] on one byte below 0x80: 'A'..'Z' move to 'a'..'z'. *)
Definition lowerByte (c : ascii) : ascii :=
  let n := N_of_ascii c in
  if ((65 <=? n) && (n <=? 90))%N then ascii_of_N (n + 32) else c.

Definition isASCIIByte (c : ascii) : bool := (N_of_ascii c <? 128)%N.

Fixpoint isASCII (s : string) : bool :=
  match s with
  | EmptyString => true
  | String c r => isASCIIByte c && isASCII r
  end.

Fixpoint mapBytes (f : ascii -> ascii) (s : string) : string :=
  match s with
  | EmptyString => EmptyString
  | String c r => String (f c) (mapBytes f r)
  end.

(** [strings.ToLower s] is [strings.Map(unicode.ToLower, s)].  On a string
    of bytes below 0x80 that is the byte-wise map above; on any other
    string the result depends on Go's Unicode tables, which are kept
    abstract as [unicodeToLower]. *)
Definition ToLower (unicodeToLower : string -> string) (s : string) : string :=
  if isASCII s then mapBytes lowerByte s else unicodeToLower s.

(** [fmt.Sprintf] with the verb [%d] applied to an [int]. *)
Definition fmt_d (n : Z) : string := pretty n.

End GoStrings.

(** ** The flat encoder (Program, Instruction, compileInstruction) *)

Module Prog.
Import GoStrings.

(** The instruction statements of the syntax tree.  [compileInstruction]
    switches on three concrete types and reads [OpName()], [Line] and
    [RegisterName]; the other fields of these structs are never read.
    [OtherInstruction] stands for any further type that implements the
    [InstructionStatement] interface. *)
Inductive InstructionStatement : Type :=
| ImpliedInstruction (OpName : string) (Line : Z)
| ImmediateInstruction (OpName : string) (Line : Z)
| AbsoluteWithLabelIndexedInstruction (OpName RegisterName : string) (Line : Z)
| OtherInstruction (OpName : string).

Definition OpName (s : InstructionStatement) : string :=
  match s with
  | ImpliedInstruction o _ => o
  | ImmediateInstruction o _ => o
  | AbsoluteWithLabelIndexedInstruction o _ _ => o
  | OtherInstruction o => o
  end.

Record Instruction : Type := mkInstruction {
  StatementAst : InstructionStatement;
  OpCode : Z;
  OpSize : Z
}.

Record Program : Type := mkProgram {
  Variables : gmap string Z;
  Labels : gmap string Z;
  Instructions : list Instruction;
  Errors : list string
}.

Definition impliedOpcodeEntries : list (string * Z) :=
  [ ("brk", 0x00); ("clc", 0x18); ("cld", 0xd8); ("cli", 0x58); ("clv", 0xb8);
    ("dex", 0xca); ("dey", 0x88); ("inx", 0xe8); ("iny", 0xc8); ("nop", 0xea);
    ("pha", 0x48); ("php", 0x08); ("pla", 0x68); ("plp", 0x28); ("rti", 0x40);
    ("rts", 0x60); ("sec", 0x38); ("sed", 0xf8); ("sei", 0x78); ("tax", 0xaa);
    ("tay", 0xa8); ("tsx", 0xba); ("txa", 0x8a); ("txs", 0x9a); ("tya", 0x98) ].

Definition immediateOpcodeEntries : list (string * Z) :=
  [ ("adc", 0x69); ("and", 0x29); ("cmp", 0xc9); ("cpx", 0xe0); ("cpy", 0xc0);
    ("eor", 0x49); ("lda", 0xa9); ("ldx", 0xa2); ("ldy", 0xa0); ("ora", 0x09);
    ("sbc", 0xe9) ].

Definition absIndexedXOpcodeEntries : list (string * Z) :=
  [ ("adc", 0x7d); ("and", 0x3d); ("asl", 0x1e); ("cmp", 0xdd); ("dec", 0xde);
    ("eor", 0x5d); ("inc", 0xfe); ("lda", 0xbd); ("ldy", 0xbc); ("lsr", 0x5e);
    ("ora", 0x1d); ("rol", 0x3e); ("ror", 0x7e); ("sbc", 0xfd); ("sta", 0x9d) ].

Definition absIndexedYOpcodeEntries : list (string * Z) :=
  [ ("adc", 0x79); ("and", 0x39); ("cmp", 0xd9); ("eor", 0x59); ("lda", 0xb9);
    ("ldx", 0xbe); ("ora", 0x19); ("sbc", 0xf9); ("sta", 0x99) ].

Definition impliedOpcode : gmap string Z := list_to_map impliedOpcodeEntries.
Definition immediateOpcode : gmap string Z := list_to_map immediateOpcodeEntries.
Definition absIndexedXOpcode : gmap string Z := list_to_map absIndexedXOpcodeEntries.
Definition absIndexedYOpcode : gmap string Z := list_to_map absIndexedYOpcodeEntries.

(** The nodes [Program.Visit] tells apart: assignments, instruction
    statements, and everything else. *)
Inductive Node : Type :=
| AssignStatement (VarName : string) (Value : Z)
| InstructionNode (s : InstructionStatement)
| OtherNode.

Section Selector.
Variable unicodeToLower : string -> string.

(** [compileInstruction]: the Go pair of an [Instruction] pointer and an
    [error], with [None] for [nil]; the messages are those [fmt.Sprintf]
    builds from the line number and the mnemonic as written. *)
Definition compileInstruction (s : InstructionStatement)
    : outcome (option Instruction * option string) :=
  let opName := OpName s in
  let lowerOpName := ToLower unicodeToLower opName in
  match s with
  | ImpliedInstruction _ line =>
      match impliedOpcode !! lowerOpName with
      | None =>
          Done (None, Some ("Line " +:+ fmt_d line +:+
                            ": Unrecognized implied instruction: " +:+ opName))
      | Some opcode => Done (Some (mkInstruction s opcode 1), None)
      end
  | ImmediateInstruction _ line =>
      match immediateOpcode !! lowerOpName with
      | None =>
          Done (None, Some ("Line " +:+ fmt_d line +:+
                            ": Unrecognized immediate instruction: " +:+ opName))
      | Some opcode => Done (Some (mkInstruction s opcode 2), None)
      end
  | AbsoluteWithLabelIndexedInstruction _ reg line =>
      let lowerRegName := ToLower unicodeToLower reg in
      if String.eqb lowerRegName "x" then
        match absIndexedXOpcode !! lowerOpName with
        | None =>
            Done (None, Some ("Line " +:+ fmt_d line +:+
                              ": Unrecognized absolute, X instruction: " +:+ opName))
        | Some opcode => Done (Some (mkInstruction s opcode 3), None)
        end
      else if String.eqb lowerRegName "y" then
        match absIndexedYOpcode !! lowerOpName with
        | None =>
            Done (None, Some ("Line " +:+ fmt_d line +:+
                              ": Unrecognized absolute, Y instruction: " +:+ opName))
        | Some opcode => Done (Some (mkInstruction s opcode 3), None)
        end
      else
        Done (None, Some ("Line " +:+ fmt_d line +:+
                          ": Register argument must be X or Y"))
  | OtherInstruction _ => Panic "Unrecognized instruction type"
  end.

(** [Program.Visit]: collect the variable assignments, the encoded
    instructions and the selection errors. *)
Definition Visit (p : Program) (n : Node) : outcome Program :=
  match n with
  | AssignStatement name value =>
      Done (mkProgram (<[name := value]> (Variables p)) (Labels p)
              (Instructions p) (Errors p))
  | InstructionNode ss =>
      obind (compileInstruction ss) (fun r =>
        match r with
        | (_, Some err) =>
            Done (mkProgram (Variables p) (Labels p) (Instructions p)
                    (Errors p ++ [err]))
        | (Some i, None) =>
            Done (mkProgram (Variables p) (Labels p) (Instructions p ++ [i])
                    (Errors p))
        | (None, None) => Done p
        end)
  | OtherNode => Done p
  end.

Definition VisitEnd (p : Program) (n : Node) : Program := p.

Definition NewProgram : Program := mkProgram ∅ ∅ [] [].

(** Modelled from the spec: the traversal [ProgramAST.Ast], which is not
    among the sources.  The tree is given as the sequence of its nodes in
    source order; the visitor's [Visit] and [VisitEnd] are called once per
    node.  A panic of the visitor unwinds the traversal. *)
Fixpoint Ast (nodes : list Node) (p : Program) : outcome Program :=
  match nodes with
  | [] => Done p
  | n :: rest => obind (Visit p n) (fun p' => Ast rest (VisitEnd p' n))
  end.

(** [ProgramAST.ToProgram]: the Go pair of a [Program] pointer and an
    [error]. *)
Definition ToProgram (ast : list Node) : outcome (Program * option string) :=
  obind (Ast ast NewProgram) (fun p => Done (p, None)).

(** *** Vocabulary of the statements about the encoder *)

(** The instruction shapes [compileInstruction] has a case for. *)
Definition coveredInstruction (s : InstructionStatement) : bool :=
  match s with
  | OtherInstruction _ => false
  | _ => true
  end.

Definition coveredNode (n : Node) : bool :=
  match n with
  | InstructionNode s => coveredInstruction s
  | _ => true
  end.

(** What the selector answers for one node: the instruction it encodes,
    or the error it reports (nothing for nodes that are no instruction). *)
Definition selected (n : Node) : list Instruction :=
  match n with
  | InstructionNode s =>
      match compileInstruction s with
      | Done (Some i, None) => [i]
      | _ => []
      end
  | _ => []
  end.

Definition rejected (n : Node) : list string :=
  match n with
  | InstructionNode s =>
      match compileInstruction s with
      | Done (_, Some err) => [err]
      | _ => []
      end
  | _ => []
  end.

End Selector.

(** A register designator that is X or Y in either letter case. *)
Definition isX (reg : string) : Prop := reg = "x" \/ reg = "X".
Definition isY (reg : string) : Prop := reg = "y" \/ reg = "Y".

End Prog.

(** ** The LLVM lowering (Compilation, Program.Compile) *)

Module Lowering.
Import GoStrings.

(** *** Formatting *)

Definition hexDigit (d : N) : ascii :=
  match d with
  | 0 => "0" | 1 => "1" | 2 => "2" | 3 => "3" | 4 => "4" | 5 => "5"
  | 6 => "6" | 7 => "7" | 8 => "8" | 9 => "9" | 10 => "a" | 11 => "b"
  | 12 => "c" | 13 => "d" | 14 => "e" | _ => "f"
  end%N%char.

Fixpoint hexDigits (fuel : nat) (n : N) (acc : string) : string :=
  match fuel with
  | O => acc
  | S f =>
      let acc' := String (hexDigit (n mod 16)) acc in
      if (n / 16 =? 0)%N then acc' else hexDigits f (n / 16)%N acc'
  end.

Fixpoint zeros (n : nat) : string :=
  match n with
  | O => ""
  | S k => String "0" (zeros k)
  end.

(** [fmt.Sprintf] with the verb [%04x] applied to an [int]: lower-case
    hexadecimal, padded with zeros to four characters, the sign included. *)
Definition fmt_04x (z : Z) : string :=
  let digits := hexDigits (S (N.size_nat (Z.abs_N z))) (Z.abs_N z) "" in
  let sign := if z <? 0 then "-" else "" in
  sign +:+ zeros (4 - String.length sign - String.length digits) +:+ digits.

(** What [fmt.Sprintf] prints for a verb that has no operand: the three
    messages of [setUpEntryPoint] pass no address to their [%04x]. *)
Definition missing_04x : string := "%!x(MISSING)".

(** *** The syntax tree as the lowering sees it *)

Inductive DataItem : Type :=
| IntegerDataItem (v : Z)
| StringDataItem (s : string)
| LabelCall (LabelName : string).

(** The node types that carry a stub [Compile] method. *)
Inductive InstructionKind : Type :=
| ImmediateInstruction
| ImpliedInstruction
| DirectWithLabelIndexedInstruction
| DirectIndexedInstruction
| DirectWithLabelInstruction
| DirectInstruction
| IndirectXInstruction
| IndirectYInstruction
| IndirectInstruction.

Definition kindName (k : InstructionKind) : string :=
  match k with
  | ImmediateInstruction => "ImmediateInstruction"
  | ImpliedInstruction => "ImpliedInstruction"
  | DirectWithLabelIndexedInstruction => "DirectWithLabelIndexedInstruction"
  | DirectIndexedInstruction => "DirectIndexedInstruction"
  | DirectWithLabelInstruction => "DirectWithLabelInstruction"
  | DirectInstruction => "DirectInstruction"
  | IndirectXInstruction => "IndirectXInstruction"
  | IndirectYInstruction => "IndirectYInstruction"
  | IndirectInstruction => "IndirectInstruction"
  end.

(** The nodes the two visitors tell apart.  [OtherNode] is any node that
    is none of the named types and has no [Compile] method. *)
Inductive Node : Type :=
| DataStatement (dataList : list DataItem) (Offset : Z)
| DataWordStatement (dataList : list DataItem)
| LabeledStatement (LabelName : string)
| Instruction (k : InstructionKind)
| OtherNode.

(** The two fields of [Program] that [Compile] reads.
    Modelled from the spec: the traversal [p.Ast.Ast(visitor)] is not among
    the sources; the tree is given as the sequence of its nodes in source
    order, each handed once to the visitor's [Visit] ([VisitEnd] does
    nothing in this visitor). *)
Record Program : Type := mkProgram {
  Ast : list Node;
  offsets : gmap Z Node
}.

(** *** The LLVM module under construction *)

Inductive IRType : Type := Int1Type | Int8Type | Int32Type | VoidType.
Inductive Linkage : Type := ExternalLinkage | PrivateLinkage.

(** The instructions the builder is asked for.  A basic block is named by
    its position among the blocks of [main]. *)
Inductive IRInstr : Type :=
| Alloca (t : IRType) (name : string)
| Br (dest : nat)
| Unreachable.

Record BasicBlock : Type := mkBlock {
  bbName : string;
  bbInstrs : list IRInstr
}.

(** A global made by [AddGlobal], [SetLinkage] and [SetInitializer]; the
    initializer is [ConstString(text, false)]: the bytes, no terminator. *)
Record GlobalVar : Type := mkGlobal {
  gName : string;
  gLinkage : Linkage;
  gInit : list ascii
}.

Record FunctionDecl : Type := mkFunction {
  fnName : string;
  fnRet : IRType;
  fnParams : list IRType;
  fnLinkage : Linkage;
  fnNoReturnNoUnwind : bool
}.

(** [mainBlocks] are the basic blocks of the function [main], in the order
    [AddBasicBlock] appended them. *)
Record Module : Type := mkModule {
  modName : string;
  globals : list GlobalVar;
  functions : list FunctionDecl;
  mainBlocks : list BasicBlock
}.

Inductive Mode : Type := dataStmtMode | compileMode.

(** The calls [Compile] makes once the module is built. *)
Inductive BackendCall : Type :=
| CallVerifyModule
| CallNewJITCompiler
| CallPassRun
| CallDump
| CallCreate (filename : string)
| CallWriteBitcodeToFile
| CallClose.

(** What those calls answer: [None] is a nil error. *)
Record Backend : Type := mkBackend {
  VerifyModule : Module -> option string;
  NewJITCompiler : Module -> option string;
  Create : string -> option string;
  WriteBitcodeToFile : Module -> option string;
  Close : option string
}.

(** The fields of [Compilation].  [builder] is the builder's insertion
    block; [currentValue] is the content of the buffer ([nil] and the empty
    buffer are both [[]]: the buffer is only read after [currentLabel] was
    found non-empty, and [dataStart] sets both); a global and a basic block
    are named by their positions in the module; [mainFn] is the function
    holding [mainBlocks]; [calls] logs the backend calls made. *)
Record Compilation : Type := mkCompilation {
  Warnings : list string;
  Errors : list string;
  program : Program;
  mod_ : Module;
  builder : option nat;
  labeledData : gmap string nat;
  currentValue : list ascii;
  currentLabel : string;
  mode : Mode;
  basicBlocks : gmap string nat;
  currentBlock : option nat;
  nmiLabelName : string;
  resetLabelName : string;
  irqLabelName : string;
  nmiBlock : option nat;
  resetBlock : option nat;
  irqBlock : option nat;
  calls : list BackendCall
}.

Definition set_Warnings (v : list string) (c : Compilation) : Compilation :=
  mkCompilation v (Errors c) (program c) (mod_ c) (builder c) (labeledData c) (currentValue c) (currentLabel c) (mode c) (basicBlocks c) (currentBlock c) (nmiLabelName c) (resetLabelName c) (irqLabelName c) (nmiBlock c) (resetBlock c) (irqBlock c) (calls c).

Definition set_Errors (v : list string) (c : Compilation) : Compilation :=
  mkCompilation (Warnings c) v (program c) (mod_ c) (builder c) (labeledData c) (currentValue c) (currentLabel c) (mode c) (basicBlocks c) (currentBlock c) (nmiLabelName c) (resetLabelName c) (irqLabelName c) (nmiBlock c) (resetBlock c) (irqBlock c) (calls c).

Definition set_mod_ (v : Module) (c : Compilation) : Compilation :=
  mkCompilation (Warnings c) (Errors c) (program c) v (builder c) (labeledData c) (currentValue c) (currentLabel c) (mode c) (basicBlocks c) (currentBlock c) (nmiLabelName c) (resetLabelName c) (irqLabelName c) (nmiBlock c) (resetBlock c) (irqBlock c) (calls c).

Definition set_builder (v : option nat) (c : Compilation) : Compilation :=
  mkCompilation (Warnings c) (Errors c) (program c) (mod_ c) v (labeledData c) (currentValue c) (currentLabel c) (mode c) (basicBlocks c) (currentBlock c) (nmiLabelName c) (resetLabelName c) (irqLabelName c) (nmiBlock c) (resetBlock c) (irqBlock c) (calls c).

Definition set_labeledData (v : gmap string nat) (c : Compilation) : Compilation :=
  mkCompilation (Warnings c) (Errors c) (program c) (mod_ c) (builder c) v (currentValue c) (currentLabel c) (mode c) (basicBlocks c) (currentBlock c) (nmiLabelName c) (resetLabelName c) (irqLabelName c) (nmiBlock c) (resetBlock c) (irqBlock c) (calls c).

Definition set_currentValue (v : list ascii) (c : Compilation) : Compilation :=
  mkCompilation (Warnings c) (Errors c) (program c) (mod_ c) (builder c) (labeledData c) v (currentLabel c) (mode c) (basicBlocks c) (currentBlock c) (nmiLabelName c) (resetLabelName c) (irqLabelName c) (nmiBlock c) (resetBlock c) (irqBlock c) (calls c).

Definition set_currentLabel (v : string) (c : Compilation) : Compilation :=
  mkCompilation (Warnings c) (Errors c) (program c) (mod_ c) (builder c) (labeledData c) (currentValue c) v (mode c) (basicBlocks c) (currentBlock c) (nmiLabelName c) (resetLabelName c) (irqLabelName c) (nmiBlock c) (resetBlock c) (irqBlock c) (calls c).

Definition set_mode (v : Mode) (c : Compilation) : Compilation :=
  mkCompilation (Warnings c) (Errors c) (program c) (mod_ c) (builder c) (labeledData c) (currentValue c) (currentLabel c) v (basicBlocks c) (currentBlock c) (nmiLabelName c) (resetLabelName c) (irqLabelName c) (nmiBlock c) (resetBlock c) (irqBlock c) (calls c).

Definition set_currentBlock (v : option nat) (c : Compilation) : Compilation :=
  mkCompilation (Warnings c) (Errors c) (program c) (mod_ c) (builder c) (labeledData c) (currentValue c) (currentLabel c) (mode c) (basicBlocks c) v (nmiLabelName c) (resetLabelName c) (irqLabelName c) (nmiBlock c) (resetBlock c) (irqBlock c) (calls c).

Definition set_nmiLabelName (v : string) (c : Compilation) : Compilation :=
  mkCompilation (Warnings c) (Errors c) (program c) (mod_ c) (builder c) (labeledData c) (currentValue c) (currentLabel c) (mode c) (basicBlocks c) (currentBlock c) v (resetLabelName c) (irqLabelName c) (nmiBlock c) (resetBlock c) (irqBlock c) (calls c).

Definition set_resetLabelName (v : string) (c : Compilation) : Compilation :=
  mkCompilation (Warnings c) (Errors c) (program c) (mod_ c) (builder c) (labeledData c) (currentValue c) (currentLabel c) (mode c) (basicBlocks c) (currentBlock c) (nmiLabelName c) v (irqLabelName c) (nmiBlock c) (resetBlock c) (irqBlock c) (calls c).

Definition set_irqLabelName (v : string) (c : Compilation) : Compilation :=
  mkCompilation (Warnings c) (Errors c) (program c) (mod_ c) (builder c) (labeledData c) (currentValue c) (currentLabel c) (mode c) (basicBlocks c) (currentBlock c) (nmiLabelName c) (resetLabelName c) v (nmiBlock c) (resetBlock c) (irqBlock c) (calls c).

Definition set_nmiBlock (v : option nat) (c : Compilation) : Compilation :=
  mkCompilation (Warnings c) (Errors c) (program c) (mod_ c) (builder c) (labeledData c) (currentValue c) (currentLabel c) (mode c) (basicBlocks c) (currentBlock c) (nmiLabelName c) (resetLabelName c) (irqLabelName c) v (resetBlock c) (irqBlock c) (calls c).

Definition set_resetBlock (v : option nat) (c : Compilation) : Compilation :=
  mkCompilation (Warnings c) (Errors c) (program c) (mod_ c) (builder c) (labeledData c) (currentValue c) (currentLabel c) (mode c) (basicBlocks c) (currentBlock c) (nmiLabelName c) (resetLabelName c) (irqLabelName c) (nmiBlock c) v (irqBlock c) (calls c).

Definition set_irqBlock (v : option nat) (c : Compilation) : Compilation :=
  mkCompilation (Warnings c) (Errors c) (program c) (mod_ c) (builder c) (labeledData c) (currentValue c) (currentLabel c) (mode c) (basicBlocks c) (currentBlock c) (nmiLabelName c) (resetLabelName c) (irqLabelName c) (nmiBlock c) (resetBlock c) v (calls c).

Definition set_calls (v : list BackendCall) (c : Compilation) : Compilation :=
  mkCompilation (Warnings c) (Errors c) (program c) (mod_ c) (builder c) (labeledData c) (currentValue c) (currentLabel c) (mode c) (basicBlocks c) (currentBlock c) (nmiLabelName c) (resetLabelName c) (irqLabelName c) (nmiBlock c) (resetBlock c) (irqBlock c) v.

Definition set_globals (g : list GlobalVar) (m : Module) : Module :=
  mkModule (modName m) g (functions m) (mainBlocks m).

Definition set_functions (f : list FunctionDecl) (m : Module) : Module :=
  mkModule (modName m) (globals m) f (mainBlocks m).

Definition set_mainBlocks (b : list BasicBlock) (m : Module) : Module :=
  mkModule (modName m) (globals m) (functions m) b.

(** *** Pass 1: data statements *)

(** [byte(v)] on an [int]. *)
Definition byte (v : Z) : ascii := ascii_of_N (Z.to_N (v mod 256)).

(** [bytes.Buffer.WriteByte] and [WriteString]: the new content and the
    returned error, which is always nil. *)
Definition WriteByte (buf : list ascii) (b : ascii) : list ascii * option string :=
  (buf ++ [b], None).

Definition WriteString (buf : list ascii) (s : string) : list ascii * option string :=
  (buf ++ list_ascii_of_string s, None).

(** The loop of [dataAddStmt] over the items of one statement. *)
Fixpoint dataAddItems (items : list DataItem) (c : Compilation) : Compilation :=
  match items with
  | [] => c
  | item :: rest =>
      match item with
      | IntegerDataItem v =>
          let '(buf, err) := WriteByte (currentValue c) (byte v) in
          let c := set_currentValue buf c in
          match err with
          | Some e => set_Errors (Errors c ++ [e]) c
          | None => dataAddItems rest c
          end
      | StringDataItem s =>
          let '(buf, err) := WriteString (currentValue c) s in
          let c := set_currentValue buf c in
          match err with
          | Some e => set_Errors (Errors c ++ [e]) c
          | None => dataAddItems rest c
          end
      | LabelCall _ => dataAddItems rest c
      end
  end.

Definition dataAddStmt (dataList : list DataItem) (Offset : Z) (c : Compilation)
    : Compilation :=
  if (String.length (currentLabel c) =? 0)%nat then
    set_Warnings (Warnings c ++ ["trashing data at 0x" +:+ fmt_04x Offset]) c
  else dataAddItems dataList c.

Definition dataStop (c : Compilation) : Compilation :=
  if (String.length (currentLabel c) =? 0)%nat then c
  else if (length (currentValue c) =? 0)%nat then c
  else
    let text := currentValue c in
    let strGlobal := length (globals (mod_ c)) in
    let c := set_mod_ (set_globals
                         (globals (mod_ c) ++
                          [mkGlobal (currentLabel c) PrivateLinkage text])
                         (mod_ c)) c in
    let c := set_labeledData (<[currentLabel c := strGlobal]> (labeledData c)) c in
    set_currentLabel "" c.

Definition dataStart (LabelName : string) (c : Compilation) : Compilation :=
  set_currentValue [] (set_currentLabel LabelName c).

Definition visitForDataStmts (n : Node) (c : Compilation) : Compilation :=
  match n with
  | DataStatement dataList Offset => dataAddStmt dataList Offset c
  | LabeledStatement LabelName => dataStart LabelName (dataStop c)
  | _ => dataStop c
  end.

(** *** Pass 2: basic blocks *)

Definition AddBasicBlock (name : string) (c : Compilation) : Compilation * nat :=
  (set_mod_ (set_mainBlocks (mainBlocks (mod_ c) ++ [mkBlock name []]) (mod_ c)) c,
   length (mainBlocks (mod_ c))).

Definition SetInsertPointAtEnd (bb : nat) (c : Compilation) : Compilation :=
  set_builder (Some bb) c.

(** The builder appends the instruction to its insertion block. *)
Definition emit (i : IRInstr) (c : Compilation) : Compilation :=
  match builder c with
  | Some bb =>
      set_mod_ (set_mainBlocks
                  (alter (fun b => mkBlock (bbName b) (bbInstrs b ++ [i])) bb
                     (mainBlocks (mod_ c)))
                  (mod_ c)) c
  | None => c
  end.

Definition CreateBr (dest : nat) : Compilation -> Compilation := emit (Br dest).
Definition CreateUnreachable : Compilation -> Compilation := emit Unreachable.
Definition CreateAlloca (t : IRType) (name : string) : Compilation -> Compilation :=
  emit (Alloca t name).

(** The nine stub [Compile] methods of the instruction nodes. *)
Definition InstructionCompile (k : InstructionKind) (c : Compilation) : Compilation :=
  set_Errors (Errors c ++ [kindName k +:+ " lacks Compile() implementation"]) c.

(** [LabeledStatement.Compile]. *)
Definition LabeledStatementCompile (LabelName : string) (c : Compilation)
    : Compilation :=
  match labeledData c !! LabelName with
  | Some _ => c
  | None =>
      let '(c, bb) := AddBasicBlock LabelName c in
      let c :=
        match currentBlock c with
        | Some cur => CreateBr bb (SetInsertPointAtEnd cur c)
        | None => c
        end in
      let c := set_currentBlock (Some bb) c in
      if String.eqb LabelName (nmiLabelName c) then
        let c := set_nmiBlock (Some bb) c in
        let c := CreateUnreachable (SetInsertPointAtEnd bb c) in
        set_currentBlock None c
      else if String.eqb LabelName (resetLabelName c) then
        set_resetBlock (Some bb) c
      else if String.eqb LabelName (irqLabelName c) then
        let c := set_irqBlock (Some bb) c in
        let c := CreateUnreachable (SetInsertPointAtEnd bb c) in
        set_currentBlock None c
      else c
  end.

Definition visitForCompile (n : Node) (c : Compilation) : Compilation :=
  match n with
  | Instruction k => InstructionCompile k c
  | LabeledStatement LabelName => LabeledStatementCompile LabelName c
  | _ => c
  end.

Definition Visit (n : Node) (c : Compilation) : Compilation :=
  match mode c with
  | dataStmtMode => visitForDataStmts n c
  | compileMode => visitForCompile n c
  end.

Definition VisitEnd (n : Node) (c : Compilation) : Compilation := c.

(** One traversal of a sequence of nodes by the visitor. *)
Fixpoint walk (nodes : list Node) (c : Compilation) : Compilation :=
  match nodes with
  | [] => c
  | n :: rest => walk rest (VisitEnd n (Visit n c))
  end.

(** *** Entry points and the driver *)

Definition addError (msg : string) (c : Compilation) : Compilation :=
  set_Errors (Errors c ++ [msg]) c.

(** [setUpEntryPoint(p, addr, s)]: [store] writes through the pointer [s].
    Indexing an empty [dataList] panics. *)
Definition setUpEntryPoint (p : Program) (addr : Z)
    (store : string -> Compilation -> Compilation) (c : Compilation)
    : outcome Compilation :=
  match offsets p !! addr with
  | None => Done (addError ("Missing 0x" +:+ missing_04x +:+ " entry point") c)
  | Some n =>
      match n with
      | DataWordStatement dataList =>
          match dataList with
          | [] => Panic "runtime error: index out of range"
          | LabelCall LabelName :: _ => Done (store LabelName c)
          | _ :: _ =>
              Done (addError ("Entry point at 0x" +:+ missing_04x +:+
                              " must be a dc.w with a label") c)
          end
      | _ =>
          Done (addError ("Entry point at 0x" +:+ missing_04x +:+
                          " must be a dc.w") c)
      end
  end.

(** [new(Compilation)] with the fields [Compile] fills in at its start. *)
Definition NewCompilation (p : Program) : Compilation :=
  mkCompilation [] [] p (mkModule "asm_module" [] [] []) None ∅ [] ""
    dataStmtMode ∅ None "" "" "" None None None [].

(** First pass: the data declarations. *)
Definition dataPass (p : Program) : Compilation :=
  walk (Ast p) (set_mode dataStmtMode (NewCompilation p)).

(** The declarations of [putChar], [exit] and [main], the block [Entry]
    and its five slots; the result carries the handle of [Entry]. *)
Definition prologue (c : Compilation) : Compilation * nat :=
  let putCharFn := mkFunction "putChar" Int32Type [Int32Type] ExternalLinkage false in
  let exitFn := mkFunction "exit" VoidType [Int32Type] ExternalLinkage true in
  let mainFn := mkFunction "main" Int32Type [] ExternalLinkage false in
  let c := set_mod_ (set_functions (functions (mod_ c) ++ [putCharFn; exitFn; mainFn])
                       (mod_ c)) c in
  let '(c, entry) := AddBasicBlock "Entry" c in
  let c := SetInsertPointAtEnd entry c in
  let c := CreateAlloca Int8Type "X" c in
  let c := CreateAlloca Int8Type "Y" c in
  let c := CreateAlloca Int8Type "A" c in
  let c := CreateAlloca Int1Type "S_neg" c in
  let c := CreateAlloca Int1Type "S_zero" c in
  (c, entry).

Definition setUpEntryPoints (p : Program) (c : Compilation) : outcome Compilation :=
  obind (setUpEntryPoint p 0xfffa set_nmiLabelName c) (fun c =>
  obind (setUpEntryPoint p 0xfffc set_resetLabelName c) (fun c =>
  setUpEntryPoint p 0xfffe set_irqLabelName c)).

(** Second pass: code generation. *)
Definition codePass (p : Program) (c : Compilation) : Compilation :=
  walk (Ast p) (set_mode compileMode c).

(** Close off the final unterminated basic block. *)
Definition closeFinalBlock (c : Compilation) : Compilation :=
  match currentBlock c with
  | Some cur => CreateUnreachable (SetInsertPointAtEnd cur c)
  | None => c
  end.

Definition call (k : BackendCall) (c : Compilation) : Compilation :=
  set_calls (calls c ++ [k]) c.

(** Hook up the entry points, then verify, optimise and write the module. *)
Definition hookUp (env : Backend) (filename : string) (entry : nat)
    (c : Compilation) : Compilation :=
  match nmiBlock c with
  | None => addError "missing nmi entry point" c
  | Some _ =>
  match resetBlock c with
  | None => addError "missing reset entry point" c
  | Some reset =>
  match irqBlock c with
  | None => addError "missing irq entry point" c
  | Some _ =>
      let c := CreateBr reset (SetInsertPointAtEnd entry c) in
      let c := call CallVerifyModule c in
      match VerifyModule env (mod_ c) with
      | Some err => addError err c
      | None =>
      let c := call CallNewJITCompiler c in
      match NewJITCompiler env (mod_ c) with
      | Some err => addError err c
      | None =>
      let c := call CallPassRun c in
      let c := call CallDump c in
      let c := call (CallCreate filename) c in
      match Create env filename with
      | Some err => addError err c
      | None =>
      let c := call CallWriteBitcodeToFile c in
      match WriteBitcodeToFile env (mod_ c) with
      | Some err => addError err c
      | None =>
      let c := call CallClose c in
      match Close env with
      | Some err => addError err c
      | None => c
      end end end end end
  end end end.

(** [Program.Compile(filename)]. *)
Definition Compile (env : Backend) (p : Program) (filename : string)
    : outcome Compilation :=
  let c := dataPass p in
  let '(c, entry) := prologue c in
  obind (setUpEntryPoints p c) (fun c =>
    let c := codePass p c in
    let c := closeFinalBlock c in
    Done (hookUp env filename entry c)).

(** *** Vocabulary of the statements about the lowering *)

(** The bytes one data statement contributes to the open buffer. *)
Definition itemBytes (item : DataItem) : list ascii :=
  match item with
  | IntegerDataItem v => [byte v]
  | StringDataItem s => list_ascii_of_string s
  | LabelCall _ => []
  end.

Definition isDataStatement (n : Node) : bool :=
  match n with
  | DataStatement _ _ => true
  | _ => false
  end.

Definition isLabeledStatement (n : Node) : bool :=
  match n with
  | LabeledStatement _ => true
  | _ => false
  end.

(** The label names of a sequence of nodes, in source order. *)
Definition labelNames (nodes : list Node) : list string :=
  flat_map (fun n => match n with LabeledStatement l => [l] | _ => [] end) nodes.

Definition isTerminator (i : IRInstr) : bool :=
  match i with
  | Br _ | Unreachable => true
  | Alloca _ _ => false
  end.


(** The blocks the second pass opened: those of [main] after [Entry]. *)
Definition labelBlocks (c : Compilation) : list BasicBlock :=
  drop 1 (mainBlocks (mod_ c)).

(** Why the look-up of one vector fails, if it does. *)
Definition entryPointError (p : Program) (addr : Z) : option string :=
  match offsets p !! addr with
  | None => Some ("Missing 0x" +:+ missing_04x +:+ " entry point")
  | Some (DataWordStatement (LabelCall _ :: _)) => None
  | Some (DataWordStatement (_ :: _)) =>
      Some ("Entry point at 0x" +:+ missing_04x +:+ " must be a dc.w with a label")
  | Some (DataWordStatement []) => None
  | Some _ => Some ("Entry point at 0x" +:+ missing_04x +:+ " must be a dc.w")
  end.

(** The vector holds a double-byte declaration without any item, which
    makes [setUpEntryPoint] panic. *)
Definition entryPointEmpty (p : Program) (addr : Z) : bool :=
  match offsets p !! addr with
  | Some (DataWordStatement []) => true
  | _ => false
  end.

Definition vectors : list Z := [0xfffa; 0xfffc; 0xfffe].

End Lowering.

(** * Properties of the flat encoder *)

Module ProgFacts.
Import GoStrings Prog.

(** The keys of the four tables are lower-case ASCII, so lower-casing
    leaves them alone whatever the Unicode tables say. *)
Lemma ToLower_table_key u (entries : list (string * Z)) op opc :
  forallb (fun e => String.eqb (ToLower u (fst e)) (fst e)) entries = true ->
  (list_to_map entries : gmap string Z) !! op = Some opc ->
  ToLower u op = op.
Proof.
  intros Hall Hin. apply elem_of_list_to_map_2 in Hin.
  rewrite forallb_forall in Hall.
  apply list_elem_of_In in Hin. specialize (Hall _ Hin). simpl in Hall.
  by apply String.eqb_eq in Hall.
Qed.

Lemma lowerByte_x c :
  isASCIIByte c = true -> lowerByte c = "x"%char -> c = "x"%char \/ c = "X"%char.
Proof.
  destruct c as [[] [] [] [] [] [] [] []]; vm_compute; intros; try discriminate; auto.
Qed.

Lemma lowerByte_y c :
  isASCIIByte c = true -> lowerByte c = "y"%char -> c = "y"%char \/ c = "Y"%char.
Proof.
  destruct c as [[] [] [] [] [] [] [] []]; vm_compute; intros; try discriminate; auto.
Qed.

Section Unicode.
Variable u : string -> string.
(** No string with a byte above 0x7f lower-cases to the one-letter names:
    Unicode has no cased letter outside ASCII whose lower case is x or y. *)
Hypothesis u_not_xy : forall s, isASCII s = false -> u s <> "x" /\ u s <> "y".

Lemma ToLower_x reg : ToLower u reg = "x" -> isX reg.
Proof.
  unfold ToLower, isX. destruct (isASCII reg) eqn:E.
  - destruct reg as [|c [|d r]]; simpl; try discriminate.
    simpl in E. rewrite andb_true_r in E. intros [= H].
    destruct (lowerByte_x c E H); subst; auto.
  - intros H. by destruct (u_not_xy reg E).
Qed.

Lemma ToLower_y reg : ToLower u reg = "y" -> isY reg.
Proof.
  unfold ToLower, isY. destruct (isASCII reg) eqn:E.
  - destruct reg as [|c [|d r]]; simpl; try discriminate.
    simpl in E. rewrite andb_true_r in E. intros [= H].
    destruct (lowerByte_y c E H); subst; auto.
  - intros H. by destruct (u_not_xy reg E).
Qed.

End Unicode.

Lemma ToLower_isX u reg : isX reg -> ToLower u reg = "x".
Proof. by intros [-> | ->]. Qed.

Lemma ToLower_isY u reg : isY reg -> ToLower u reg = "y".
Proof. by intros [-> | ->]. Qed.

(** C1.  Selection conforms to the encoding tables, which are consulted
    under the lower-cased mnemonic.  Whenever the lower case of the
    mnemonic has an entry in the table of the statement's shape, selection
    returns exactly that entry's opcode, with size 1 (implied), 2
    (immediate) or 3 (absolute indexed by X or Y); the keys of the implied
    table are their own lower case, so every mnemonic present in that table
    selects its own entry; a mnemonic that is [lda] in any letter case
    selects 0xa9 with size 2 when immediate and 0xbd with size 3 when
    absolute indexed by X; and when the lower-cased mnemonic has no entry
    in the table consulted, selection fails with the
    unrecognized-instruction error of that mode, which ends with the
    mnemonic as written. *)
Theorem C1_selection_conforms_to_tables (u : string -> string) :
  (forall op opc line,
      impliedOpcode !! ToLower u op = Some opc ->
      compileInstruction u (ImpliedInstruction op line)
      = Done (Some (mkInstruction (ImpliedInstruction op line) opc 1), None))
  /\ (forall op opc line,
      impliedOpcode !! op = Some opc ->
      ToLower u op = op
      /\ compileInstruction u (ImpliedInstruction op line)
         = Done (Some (mkInstruction (ImpliedInstruction op line) opc 1), None))
  /\ (forall op opc line,
      immediateOpcode !! ToLower u op = Some opc ->
      compileInstruction u (ImmediateInstruction op line)
      = Done (Some (mkInstruction (ImmediateInstruction op line) opc 2), None))
  /\ (forall op reg opc line, isX reg ->
      absIndexedXOpcode !! ToLower u op = Some opc ->
      compileInstruction u (AbsoluteWithLabelIndexedInstruction op reg line)
      = Done (Some (mkInstruction
                      (AbsoluteWithLabelIndexedInstruction op reg line) opc 3),
              None))
  /\ (forall op reg opc line, isY reg ->
      absIndexedYOpcode !! ToLower u op = Some opc ->
      compileInstruction u (AbsoluteWithLabelIndexedInstruction op reg line)
      = Done (Some (mkInstruction
                      (AbsoluteWithLabelIndexedInstruction op reg line) opc 3),
              None))
  /\ (forall op line,
      ToLower u op = "lda" ->
      compileInstruction u (ImmediateInstruction op line)
      = Done (Some (mkInstruction (ImmediateInstruction op line) 0xa9 2), None))
  /\ (forall op reg line,
      ToLower u op = "lda" -> isX reg ->
      compileInstruction u (AbsoluteWithLabelIndexedInstruction op reg line)
      = Done (Some (mkInstruction
                      (AbsoluteWithLabelIndexedInstruction op reg line) 0xbd 3),
              None))
  /\ (forall op line,
      impliedOpcode !! ToLower u op = None ->
      compileInstruction u (ImpliedInstruction op line)
      = Done (None, Some ("Line " +:+ fmt_d line +:+
                          ": Unrecognized implied instruction: " +:+ op)))
  /\ (forall op line,
      immediateOpcode !! ToLower u op = None ->
      compileInstruction u (ImmediateInstruction op line)
      = Done (None, Some ("Line " +:+ fmt_d line +:+
                          ": Unrecognized immediate instruction: " +:+ op)))
  /\ (forall op reg line, isX reg ->
      absIndexedXOpcode !! ToLower u op = None ->
      compileInstruction u (AbsoluteWithLabelIndexedInstruction op reg line)
      = Done (None, Some ("Line " +:+ fmt_d line +:+
                          ": Unrecognized absolute, X instruction: " +:+ op)))
  /\ (forall op reg line, isY reg ->
      absIndexedYOpcode !! ToLower u op = None ->
      compileInstruction u (AbsoluteWithLabelIndexedInstruction op reg line)
      = Done (None, Some ("Line " +:+ fmt_d line +:+
                          ": Unrecognized absolute, Y instruction: " +:+ op))).
Proof.
  assert (Himp : forall op opc line,
             impliedOpcode !! ToLower u op = Some opc ->
             compileInstruction u (ImpliedInstruction op line)
             = Done (Some (mkInstruction (ImpliedInstruction op line) opc 1), None)).
  { intros op opc line H. unfold compileInstruction. cbn [OpName]. by rewrite H. }
  assert (Himm : forall op opc line,
             immediateOpcode !! ToLower u op = Some opc ->
             compileInstruction u (ImmediateInstruction op line)
             = Done (Some (mkInstruction (ImmediateInstruction op line) opc 2), None)).
  { intros op opc line H. unfold compileInstruction. cbn [OpName]. by rewrite H. }
  assert (Hx : forall op reg opc line, isX reg ->
             absIndexedXOpcode !! ToLower u op = Some opc ->
             compileInstruction u (AbsoluteWithLabelIndexedInstruction op reg line)
             = Done (Some (mkInstruction
                             (AbsoluteWithLabelIndexedInstruction op reg line) opc 3),
                     None)).
  { intros op reg opc line HX H. unfold compileInstruction. cbn [OpName].
    rewrite (ToLower_isX u reg HX). cbn [String.eqb Ascii.eqb Bool.eqb].
    by rewrite H. }
  split; [exact Himp|]. split.
  { intros op opc line Hin.
    pose proof (ToLower_table_key u impliedOpcodeEntries op opc eq_refl Hin) as E.
    split; [exact E|]. apply Himp. by rewrite E. }
  split; [exact Himm|]. split; [exact Hx|]. split.
  { intros op reg opc line HY H. unfold compileInstruction. cbn [OpName].
    rewrite (ToLower_isY u reg HY). cbn [String.eqb Ascii.eqb Bool.eqb].
    by rewrite H. }
  split.
  { intros op line E. apply Himm. by rewrite E. }
  split.
  { intros op reg line E HX. apply Hx; [exact HX|]. by rewrite E. }
  split.
  { intros op line Hno. unfold compileInstruction. cbn [OpName]. by rewrite Hno. }
  split.
  { intros op line Hno. unfold compileInstruction. cbn [OpName]. by rewrite Hno. }
  split.
  { intros op reg line HX Hno. unfold compileInstruction. cbn [OpName].
    rewrite (ToLower_isX u reg HX). cbn [String.eqb Ascii.eqb Bool.eqb].
    by rewrite Hno. }
  intros op reg line HY Hno. unfold compileInstruction. cbn [OpName].
  rewrite (ToLower_isY u reg HY). cbn [String.eqb Ascii.eqb Bool.eqb].
  by rewrite Hno.
Qed.

(** C1 at concrete instructions: [TAX] is taken from the implied table
    through its lower case, [LDA] immediate selects 0xa9, and [xyz] is
    reported by name. *)
Lemma C1_selection_witness :
  compileInstruction (fun s => s) (ImpliedInstruction "TAX" 7)
  = Done (Some (mkInstruction (ImpliedInstruction "TAX" 7) 0xaa 1), None)
  /\ compileInstruction (fun s => s) (ImmediateInstruction "LDA" 8)
     = Done (Some (mkInstruction (ImmediateInstruction "LDA" 8) 0xa9 2), None)
  /\ compileInstruction (fun s => s) (ImpliedInstruction "xyz" 12)
     = Done (None, Some "Line 12: Unrecognized implied instruction: xyz").
Proof.
  split; [|split].
  - apply (proj1 (C1_selection_conforms_to_tables (fun s => s)) "TAX" 0xaa 7).
    reflexivity.
  - apply (proj1 (proj2 (proj2 (proj2 (proj2 (proj2
             (C1_selection_conforms_to_tables (fun s => s))))))) "LDA" 8).
    reflexivity.
  - apply (proj1 (proj2 (proj2 (proj2 (proj2 (proj2 (proj2 (proj2
             (C1_selection_conforms_to_tables (fun s => s))))))))) "xyz" 12).
    reflexivity.
Defined.

(** C2.  For an absolute-with-label-indexed instruction, a register
    designator that is not X or Y (in either letter case) fails with the
    register-must-be-X-or-Y error whatever the mnemonic; a designator that
    is X or Y with a mnemonic that has no entry in that mode's table fails
    with the unrecognized-instruction error of that mode. *)
Theorem C2_register_must_be_X_or_Y (u : string -> string)
    (u_not_xy : forall s, isASCII s = false -> u s <> "x" /\ u s <> "y") :
  (forall op reg line,
      ~ isX reg -> ~ isY reg ->
      compileInstruction u (AbsoluteWithLabelIndexedInstruction op reg line)
      = Done (None, Some ("Line " +:+ fmt_d line +:+
                          ": Register argument must be X or Y")))
  /\ (forall op reg line, isX reg ->
      absIndexedXOpcode !! ToLower u op = None ->
      compileInstruction u (AbsoluteWithLabelIndexedInstruction op reg line)
      = Done (None, Some ("Line " +:+ fmt_d line +:+
                          ": Unrecognized absolute, X instruction: " +:+ op)))
  /\ (forall op reg line, isY reg ->
      absIndexedYOpcode !! ToLower u op = None ->
      compileInstruction u (AbsoluteWithLabelIndexedInstruction op reg line)
      = Done (None, Some ("Line " +:+ fmt_d line +:+
                          ": Unrecognized absolute, Y instruction: " +:+ op))).
Proof.
  repeat split.
  - intros op reg line HnX HnY. unfold compileInstruction.
    destruct (String.eqb_spec (ToLower u reg) "x") as [E|_].
    { destruct HnX. by apply (ToLower_x u u_not_xy). }
    destruct (String.eqb_spec (ToLower u reg) "y") as [E|_].
    { destruct HnY. by apply (ToLower_y u u_not_xy). }
    reflexivity.
  - intros op reg line HX Hno. unfold compileInstruction. simpl OpName.
    rewrite (ToLower_isX u reg HX). simpl. by rewrite Hno.
  - intros op reg line HY Hno. unfold compileInstruction. simpl OpName.
    rewrite (ToLower_isY u reg HY). simpl. by rewrite Hno.
Qed.

Lemma id_not_xy (s : string) :
  isASCII s = false -> (fun s : string => s) s <> "x" /\ (fun s : string => s) s <> "y".
Proof. intros H. split; intros ->; discriminate. Qed.

(** C2 at concrete instructions: designator [z] with a valid mnemonic, and
    designator [Y] with a mnemonic the Y table lacks. *)
Lemma C2_register_witness :
  compileInstruction (fun s => s) (AbsoluteWithLabelIndexedInstruction "lda" "z" 3)
  = Done (None, Some "Line 3: Register argument must be X or Y")
  /\ compileInstruction (fun s => s) (AbsoluteWithLabelIndexedInstruction "asl" "Y" 4)
     = Done (None, Some "Line 4: Unrecognized absolute, Y instruction: asl").
Proof.
  split.
  - apply (proj1 (C2_register_must_be_X_or_Y (fun s => s) id_not_xy) "lda" "z" 3).
    + intros [H|H]; discriminate.
    + intros [H|H]; discriminate.
  - apply (proj2 (proj2 (C2_register_must_be_X_or_Y (fun s => s) id_not_xy))
             "asl" "Y" 4).
    + right; reflexivity.
    + reflexivity.
Defined.

(** *** The collector *)

Lemma compileInstruction_covered u s :
  coveredInstruction s = true ->
  (exists i, compileInstruction u s = Done (Some i, None))
  \/ (exists e, compileInstruction u s = Done (None, Some e)).
Proof.
  destruct s as [op line|op line|op reg line|op]; intros Hc;
    unfold compileInstruction; cbn [OpName].
  - destruct (impliedOpcode !! ToLower u op); eauto.
  - destruct (immediateOpcode !! ToLower u op); eauto.
  - destruct (String.eqb (ToLower u reg) "x").
    { destruct (absIndexedXOpcode !! ToLower u op); eauto. }
    destruct (String.eqb (ToLower u reg) "y"); [|eauto].
    destruct (absIndexedYOpcode !! ToLower u op); eauto.
  - discriminate Hc.
Qed.

Lemma Visit_instruction u p s :
  coveredInstruction s = true ->
  Visit u p (InstructionNode s)
  = Done (mkProgram (Variables p) (Labels p)
            (Instructions p ++ selected u (InstructionNode s))
            (Errors p ++ rejected u (InstructionNode s))).
Proof.
  intros Hc. unfold Visit, selected, rejected.
  destruct (compileInstruction_covered u s Hc) as [[i ->]|[e ->]]; simpl;
    rewrite app_nil_r; reflexivity.
Qed.

Lemma Visit_covered u p n :
  coveredNode n = true ->
  exists p', Visit u p n = Done p'
    /\ Instructions p' = Instructions p ++ selected u n
    /\ Errors p' = Errors p ++ rejected u n.
Proof.
  destruct n as [name value|s|]; simpl coveredNode; intros Hc.
  - eexists; split; [reflexivity|]. simpl. by rewrite !app_nil_r.
  - rewrite (Visit_instruction u p s Hc). eexists; split; [reflexivity|]. done.
  - exists p. simpl. by rewrite !app_nil_r.
Qed.

Lemma Ast_collects u nodes : forall p,
  forallb coveredNode nodes = true ->
  exists p', Ast u nodes p = Done p'
    /\ Instructions p' = Instructions p ++ flat_map (selected u) nodes
    /\ Errors p' = Errors p ++ flat_map (rejected u) nodes.
Proof.
  induction nodes as [|n rest IH]; intros p Hc.
  - exists p. simpl. by rewrite !app_nil_r.
  - simpl in Hc. apply andb_true_iff in Hc as [Hn Hrest].
    destruct (Visit_covered u p n Hn) as (p1 & HV & HI & HE).
    destruct (IH p1 Hrest) as (p2 & HA & HI2 & HE2).
    exists p2. cbn [Ast]. rewrite HV. cbn [obind]. unfold VisitEnd.
    split; [exact HA|]. cbn [flat_map].
    rewrite HI2, HE2, HI, HE, <- !app_assoc. done.
Qed.

(** C9.  In the flat collector every visited instruction statement (of a
    shape the selector has a case for) contributes exactly one of: the
    encoded instruction appended, errors untouched (selection succeeded),
    or the error appended, instructions untouched (selection failed);
    and the traversal goes on after an error, so the errors of the whole
    program end up in the error list in source order. *)
Theorem C9_collector_accumulates (u : string -> string) :
  (forall p s, coveredInstruction s = true ->
     (exists i, compileInstruction u s = Done (Some i, None)
        /\ Visit u p (InstructionNode s)
           = Done (mkProgram (Variables p) (Labels p) (Instructions p ++ [i])
                     (Errors p)))
     \/ (exists e, compileInstruction u s = Done (None, Some e)
        /\ Visit u p (InstructionNode s)
           = Done (mkProgram (Variables p) (Labels p) (Instructions p)
                     (Errors p ++ [e]))))
  /\ (forall nodes p, forallb coveredNode nodes = true ->
     exists p', Ast u nodes p = Done p'
       /\ Instructions p' = Instructions p ++ flat_map (selected u) nodes
       /\ Errors p' = Errors p ++ flat_map (rejected u) nodes).
Proof.
  split.
  - intros p s Hc.
    destruct (compileInstruction_covered u s Hc) as [[i Hi]|[e He]].
    + left. exists i. split; [exact Hi|]. unfold Visit. by rewrite Hi.
    + right. exists e. split; [exact He|]. unfold Visit. by rewrite He.
  - intros nodes p. apply Ast_collects.
Qed.

(** C9 on a program with two bad instructions around a good one: both
    errors are collected, in source order, and the good one is encoded. *)
Lemma C9_collector_witness :
  exists p', Ast (fun s => s)
               [InstructionNode (ImpliedInstruction "foo" 1);
                InstructionNode (ImmediateInstruction "LDA" 2);
                InstructionNode (AbsoluteWithLabelIndexedInstruction "lda" "q" 3)]
               NewProgram = Done p'
    /\ Instructions p'
       = [mkInstruction (ImmediateInstruction "LDA" 2) 0xa9 2]
    /\ Errors p'
       = ["Line 1: Unrecognized implied instruction: foo";
          "Line 3: Register argument must be X or Y"].
Proof.
  apply (proj2 (C9_collector_accumulates (fun s => s))
           [InstructionNode (ImpliedInstruction "foo" 1);
            InstructionNode (ImmediateInstruction "LDA" 2);
            InstructionNode (AbsoluteWithLabelIndexedInstruction "lda" "q" 3)]
           NewProgram).
  reflexivity.
Defined.

(** C10.  [ToProgram] never hands back a non-nil error: whenever it
    returns, its error value is nil, and it does return for every tree
    whose instruction statements have a shape the selector has a case for,
    unrecognized mnemonics included; the selection failures are then exactly
    the [Errors] of the returned program. *)
Theorem C10_ToProgram_error_is_nil (u : string -> string) (ast : list Node) :
  (forall p e, ToProgram u ast = Done (p, e) -> e = None)
  /\ (forallb coveredNode ast = true ->
      exists p, ToProgram u ast = Done (p, None)
        /\ Errors p = flat_map (rejected u) ast
        /\ Instructions p = flat_map (selected u) ast).
Proof.
  split.
  - intros p e. unfold ToProgram.
    destruct (Ast u ast NewProgram); simpl; congruence.
  - intros Hc. destruct (Ast_collects u ast NewProgram Hc) as (p & HA & HI & HE).
    exists p. unfold ToProgram. rewrite HA. simpl. auto.
Qed.

(** C10 on a program with an unrecognized instruction: the error return is
    nil and the failure sits in [Errors]. *)
Lemma C10_ToProgram_witness :
  exists p, ToProgram (fun s => s)
              [InstructionNode (ImpliedInstruction "foo" 1);
               AssignStatement "v" 5] = Done (p, None)
    /\ Errors p = ["Line 1: Unrecognized implied instruction: foo"]
    /\ Instructions p = [].
Proof.
  apply (proj2 (C10_ToProgram_error_is_nil (fun s => s)
                  [InstructionNode (ImpliedInstruction "foo" 1);
                   AssignStatement "v" 5])).
  reflexivity.
Defined.

End ProgFacts.

(** * Properties of the lowering *)

Module LoweringFacts.
Import GoStrings Lowering.

(** ** Pass 1 *)

(** The bytes a node contributes when a buffer is open. *)
Definition nodeBytes (n : Node) : list ascii :=
  match n with
  | DataStatement dataList _ => flat_map itemBytes dataList
  | _ => []
  end.

Lemma walk_app nodes1 nodes2 c :
  walk (nodes1 ++ nodes2) c = walk nodes2 (walk nodes1 c).
Proof. revert c. induction nodes1 as [|n r IH]; intros c; simpl; [done|apply IH]. Qed.

Lemma set_currentValue_same c : set_currentValue (currentValue c) c = c.
Proof. by destruct c. Qed.

Lemma dataAddItems_appends items : forall c,
  dataAddItems items c
  = set_currentValue (currentValue c ++ flat_map itemBytes items) c.
Proof.
  induction items as [|item rest IH]; intros c.
  - simpl. rewrite app_nil_r. symmetry. apply set_currentValue_same.
  - destruct item as [v|s|l]; cbn [dataAddItems WriteByte WriteString flat_map itemBytes].
    + rewrite IH. destruct c; simpl. by rewrite <- app_assoc.
    + rewrite IH. destruct c; simpl. by rewrite <- app_assoc.
    + rewrite IH. reflexivity.
Qed.

Lemma length_nonempty (l : string) : l <> "" -> (String.length l =? 0)%nat = false.
Proof. by destruct l. Qed.

(** A run of data statements under an open label only grows the buffer. *)
Lemma walk_data_run ds : forall c,
  mode c = dataStmtMode ->
  currentLabel c <> "" ->
  forallb isDataStatement ds = true ->
  walk ds c = set_currentValue (currentValue c ++ flat_map nodeBytes ds) c.
Proof.
  induction ds as [|d r IH]; intros c Hm Hl Hd.
  - simpl. rewrite app_nil_r. symmetry. apply set_currentValue_same.
  - simpl in Hd. apply andb_true_iff in Hd as [Hd Hr].
    destruct d as [items off| | | |]; try discriminate Hd.
    cbn [walk VisitEnd]. unfold Visit. rewrite Hm.
    cbn [visitForDataStmts]. unfold dataAddStmt.
    rewrite (length_nonempty _ Hl), dataAddItems_appends.
    rewrite IH; [|by destruct c|by destruct c|exact Hr].
    destruct c; simpl. by rewrite <- app_assoc.
Qed.

(** The three ways [dataStop] goes. *)
Lemma dataStop_closed c : currentLabel c = "" -> dataStop c = c.
Proof. intros H. unfold dataStop. by rewrite H. Qed.

Lemma dataStop_empty c : currentValue c = [] -> dataStop c = c.
Proof. intros H. unfold dataStop. rewrite H. by destruct (_ =? _)%nat. Qed.

Lemma dataStop_open c :
  currentLabel c <> "" -> currentValue c <> [] ->
  dataStop c
  = set_currentLabel ""
      (set_labeledData (<[currentLabel c := length (globals (mod_ c))]> (labeledData c))
         (set_mod_ (set_globals
                      (globals (mod_ c) ++
                       [mkGlobal (currentLabel c) PrivateLinkage (currentValue c)])
                      (mod_ c)) c)).
Proof.
  intros Hl Hv. unfold dataStop. rewrite (length_nonempty _ Hl).
  destruct (currentValue c) eqn:E; [done|]. reflexivity.
Qed.



(** What does hold of [dataStop]: it leaves no label open unless a label
    is open over an empty buffer, and then it leaves everything as it is. *)
Lemma dataStop_currentLabel c :
  currentLabel (dataStop c) = "" \/
  (currentLabel c <> "" /\ currentValue c = [] /\ dataStop c = c).
Proof.
  destruct (decide (currentLabel c = "")) as [E|E].
  - left. by rewrite dataStop_closed.
  - destruct (currentValue c) eqn:Ev.
    + right. split; [done|]. split; [done|]. by apply dataStop_empty.
    + left. rewrite dataStop_open; [done|done|]. by rewrite Ev.
Qed.

(** With no label open, a data statement only adds the warning. *)
Lemma dataAddStmt_trashes c dataList Offset :
  currentLabel c = "" ->
  dataAddStmt dataList Offset c
  = set_Warnings (Warnings c ++ ["trashing data at 0x" +:+ fmt_04x Offset]) c.
Proof. intros H. unfold dataAddStmt. by rewrite H. Qed.

(** C6, the code at the failing input.  The label [L] is followed by an
    instruction, so its buffer is still empty when [dataStop] runs, and
    [dataStop] returns before it clears [currentLabel]: the label stays
    open, the later data statement is appended to its buffer without any
    warning, and the next statement turns the buffer into the global [L]. *)
Theorem C6_label_stays_open_over_empty_buffer :
  currentLabel (walk [LabeledStatement "L"; Instruction ImpliedInstruction]
                  (NewCompilation (mkProgram [] ∅))) = "L"
  /\ Warnings (walk [LabeledStatement "L"; Instruction ImpliedInstruction;
                     DataStatement [IntegerDataItem 1] 16]
                 (NewCompilation (mkProgram [] ∅))) = []
  /\ currentValue (walk [LabeledStatement "L"; Instruction ImpliedInstruction;
                         DataStatement [IntegerDataItem 1] 16]
                     (NewCompilation (mkProgram [] ∅))) = [byte 1]
  /\ globals (mod_ (walk [LabeledStatement "L"; Instruction ImpliedInstruction;
                          DataStatement [IntegerDataItem 1] 16;
                          Instruction ImpliedInstruction]
                      (NewCompilation (mkProgram [] ∅))))
     = [mkGlobal "L" PrivateLinkage [byte 1]].
Proof. repeat split. Qed.

(** ** Pass 2: the blocks of [main] *)

(** What the builder does to its insertion block. *)
Definition addInstr (i : IRInstr) (b : BasicBlock) : BasicBlock :=
  mkBlock (bbName b) (bbInstrs b ++ [i]).

Lemma mainBlocks_emit i c :
  mainBlocks (mod_ (emit i c))
  = match builder c with
    | Some bb => alter (addInstr i) bb (mainBlocks (mod_ c))
    | None => mainBlocks (mod_ c)
    end.
Proof. unfold emit. by destruct (builder c). Qed.

Lemma names_alter i k (blks : list BasicBlock) :
  map bbName (alter (addInstr i) k blks) = map bbName blks.
Proof.
  revert k. induction blks as [|b r IH]; intros [|k]; simpl; try done.
  f_equal. apply IH.
Qed.

(** Every block of [main] after [Entry] holds exactly one instruction, a
    terminator, except the open block [cur], which is empty. *)
Definition closedExcept (cur : option nat) (blks : list BasicBlock) : Prop :=
  forall (i : nat) blk, (1 <= i)%nat -> blks !! i = Some blk ->
    if decide (cur = Some i) then bbInstrs blk = []
    else exists t, bbInstrs blk = [t] /\ isTerminator t = true.

Lemma closedExcept_open_fresh blks L :
  closedExcept None blks ->
  closedExcept (Some (length blks)) (blks ++ [mkBlock L []]).
Proof.
  intros H i blk Hi Hl.
  destruct (decide (i < length blks)%nat) as [Hlt|Hge].
  - rewrite lookup_app_l in Hl by done.
    specialize (H i blk Hi Hl). simpl in H.
    destruct (decide (Some (length blks) = Some i)) as [[= E]|_]; [lia|].
    by destruct (decide (None = Some i)).
  - rewrite lookup_app_r in Hl by lia.
    destruct (i - length blks)%nat as [|k] eqn:E; simpl in Hl; [|done].
    injection Hl as <-. assert (i = length blks) as -> by lia.
    by rewrite decide_True.
Qed.

Lemma closedExcept_close blks cur t :
  isTerminator t = true ->
  closedExcept (Some cur) blks ->
  closedExcept None (alter (addInstr t) cur blks).
Proof.
  intros Ht H i blk Hi Hl. rewrite decide_False by done.
  destruct (decide (cur = i)) as [->|Hne].
  - rewrite list_lookup_alter_eq in Hl.
    destruct (blks !! i) as [b0|] eqn:E; [|done]. injection Hl as <-.
    specialize (H i b0 Hi E). rewrite decide_True in H by done.
    exists t. simpl. by rewrite H.
  - rewrite list_lookup_alter_ne in Hl by done.
    specialize (H i blk Hi Hl). rewrite decide_False in H by congruence. done.
Qed.

Lemma closedExcept_branch_fresh blks cur L :
  (cur < length blks)%nat ->
  closedExcept (Some cur) blks ->
  closedExcept (Some (length blks))
    (alter (addInstr (Br (length blks))) cur (blks ++ [mkBlock L []])).
Proof.
  intros Hcur H.
  rewrite alter_app_l by done.
  pose proof (closedExcept_close blks cur (Br (length blks)) eq_refl H) as H1.
  apply closedExcept_open_fresh with (L := L) in H1.
  by rewrite length_alter in H1.
Qed.

(** What the second pass never touches. *)
Definition sameData (c c' : Compilation) : Prop :=
  labeledData c' = labeledData c
  /\ nmiLabelName c' = nmiLabelName c
  /\ resetLabelName c' = resetLabelName c
  /\ irqLabelName c' = irqLabelName c
  /\ calls c' = calls c
  /\ mode c' = mode c
  /\ basicBlocks c' = basicBlocks c
  /\ globals (mod_ c') = globals (mod_ c)
  /\ Warnings c' = Warnings c.

Lemma sameData_refl c : sameData c c.
Proof. by repeat split. Qed.

Lemma sameData_trans c1 c2 c3 : sameData c1 c2 -> sameData c2 c3 -> sameData c1 c3.
Proof.
  unfold sameData. intros (?&?&?&?&?&?&?&?&?) (?&?&?&?&?&?&?&?&?).
  repeat split; congruence.
Qed.

(** The blocks once [LabeledStatement.Compile] has added the block of the
    label and branched to it from the open block. *)
Definition blocksWith (L : string) (c : Compilation) : list BasicBlock :=
  let blks := mainBlocks (mod_ c) in
  match currentBlock c with
  | Some cur => alter (addInstr (Br (length blks))) cur (blks ++ [mkBlock L []])
  | None => blks ++ [mkBlock L []]
  end.

Lemma LabeledStatementCompile_data L c :
  labeledData c !! L <> None -> LabeledStatementCompile L c = c.
Proof. unfold LabeledStatementCompile. by destruct (labeledData c !! L). Qed.

Lemma LabeledStatementCompile_code L c :
  labeledData c !! L = None ->
  let bb := length (mainBlocks (mod_ c)) in
  let c' := LabeledStatementCompile L c in
  sameData c c' /\ Errors c' = Errors c /\
  if String.eqb L (nmiLabelName c) then
    mainBlocks (mod_ c') = alter (addInstr Unreachable) bb (blocksWith L c)
    /\ currentBlock c' = None /\ nmiBlock c' = Some bb
    /\ resetBlock c' = resetBlock c /\ irqBlock c' = irqBlock c
  else if String.eqb L (resetLabelName c) then
    mainBlocks (mod_ c') = blocksWith L c
    /\ currentBlock c' = Some bb /\ nmiBlock c' = nmiBlock c
    /\ resetBlock c' = Some bb /\ irqBlock c' = irqBlock c
  else if String.eqb L (irqLabelName c) then
    mainBlocks (mod_ c') = alter (addInstr Unreachable) bb (blocksWith L c)
    /\ currentBlock c' = None /\ nmiBlock c' = nmiBlock c
    /\ resetBlock c' = resetBlock c /\ irqBlock c' = Some bb
  else
    mainBlocks (mod_ c') = blocksWith L c
    /\ currentBlock c' = Some bb /\ nmiBlock c' = nmiBlock c
    /\ resetBlock c' = resetBlock c /\ irqBlock c' = irqBlock c.
Proof.
  intros Hd bb c'. unfold c', bb, LabeledStatementCompile, blocksWith. rewrite Hd.
  destruct c as [W E p [nm gl fs blks] b ld cv cl md bbs cur nl rl il nb rb ib cs].
  cbn [AddBasicBlock mod_ mainBlocks set_mod_ set_mainBlocks currentBlock
       modName globals functions].
  destruct cur as [cur|];
    cbn -[String.eqb alter];
    destruct (String.eqb L nl); [| destruct (String.eqb L rl);
                                   [| destruct (String.eqb L il)] | |
                                   destruct (String.eqb L rl);
                                   [| destruct (String.eqb L il)]];
    cbn -[alter]; repeat split.
Qed.

(** The block [Entry] as [Compile] leaves it before the second pass. *)
Definition entryBlock : BasicBlock :=
  mkBlock "Entry"
    [Alloca Int8Type "X"; Alloca Int8Type "Y"; Alloca Int8Type "A";
     Alloca Int1Type "S_neg"; Alloca Int1Type "S_zero"].

(** The invariant of the second pass. *)
Record codeInv (c : Compilation) : Prop := mkCodeInv {
  ci_entry : mainBlocks (mod_ c) !! 0%nat = Some entryBlock;
  ci_cur : forall b, currentBlock c = Some b ->
             (1 <= b < length (mainBlocks (mod_ c)))%nat;
  ci_closed : closedExcept (currentBlock c) (mainBlocks (mod_ c));
  ci_nmi : forall b, nmiBlock c = Some b ->
             (1 <= b < length (mainBlocks (mod_ c)))%nat;
  ci_reset : forall b, resetBlock c = Some b ->
             (1 <= b < length (mainBlocks (mod_ c)))%nat;
  ci_irq : forall b, irqBlock c = Some b ->
             (1 <= b < length (mainBlocks (mod_ c)))%nat;
  ci_nmi_reset : forall a b, nmiBlock c = Some a -> resetBlock c = Some b -> a <> b;
  ci_irq_reset : forall a b, irqBlock c = Some a -> resetBlock c = Some b -> a <> b;
  ci_reset_name : forall b, resetBlock c = Some b ->
             map bbName (mainBlocks (mod_ c)) !! b = Some (resetLabelName c)
}.

Lemma entry_length c : codeInv c -> (1 <= length (mainBlocks (mod_ c)))%nat.
Proof.
  intros [He _ _ _ _ _ _ _ _]. apply lookup_lt_Some in He. lia.
Qed.

Lemma blocksWith_names L c :
  map bbName (blocksWith L c) = map bbName (mainBlocks (mod_ c)) ++ [L].
Proof.
  unfold blocksWith. destruct (currentBlock c).
  - by rewrite names_alter, map_app.
  - by rewrite map_app.
Qed.

Lemma blocksWith_length L c :
  length (blocksWith L c) = S (length (mainBlocks (mod_ c))).
Proof.
  unfold blocksWith. destruct (currentBlock c);
    rewrite ?length_alter, length_app; simpl; lia.
Qed.

Lemma blocksWith_entry L c :
  codeInv c -> blocksWith L c !! 0%nat = Some entryBlock.
Proof.
  intros Hi. pose proof (entry_length c Hi) as Hlen.
  unfold blocksWith. destruct (currentBlock c) as [cur|] eqn:E.
  - destruct (ci_cur c Hi cur E) as [H1 H2].
    rewrite list_lookup_alter_ne by lia.
    rewrite lookup_app_l by lia. apply (ci_entry c Hi).
  - rewrite lookup_app_l by lia. apply (ci_entry c Hi).
Qed.

Lemma blocksWith_closed L c :
  codeInv c ->
  closedExcept (Some (length (mainBlocks (mod_ c)))) (blocksWith L c).
Proof.
  intros Hi. pose proof (ci_closed c Hi) as Hc.
  unfold blocksWith. destruct (currentBlock c) as [cur|] eqn:E.
  - apply closedExcept_branch_fresh; [|exact Hc].
    by destruct (ci_cur c Hi cur E).
  - by apply closedExcept_open_fresh.
Qed.

Lemma lookup_names_old (names : list string) L (b : nat) :
  (b < length names)%nat -> (names ++ [L]) !! b = names !! b.
Proof. intros H. by rewrite lookup_app_l. Qed.

Lemma lookup_names_new (names : list string) L :
  (names ++ [L]) !! length names = Some L.
Proof. rewrite lookup_app_r by lia. by rewrite Nat.sub_diag. Qed.

Lemma LabeledStatementCompile_inv L c :
  codeInv c -> codeInv (LabeledStatementCompile L c).
Proof.
  intros Hi.
  destruct (labeledData c !! L) eqn:Hd.
  { rewrite LabeledStatementCompile_data; [done|by rewrite Hd]. }
  pose proof (LabeledStatementCompile_code L c Hd) as (Hs & _ & H).
  destruct Hs as (_ & _ & Hrn & _).
  pose proof (entry_length c Hi) as Hlen.
  pose proof (blocksWith_entry L c Hi) as HBe.
  pose proof (blocksWith_closed L c Hi) as HBc.
  pose proof (blocksWith_length L c) as HBl.
  pose proof (blocksWith_names L c) as HBn.
  pose proof (ci_nmi c Hi) as Hn. pose proof (ci_reset c Hi) as Hr.
  pose proof (ci_irq c Hi) as Hq. pose proof (ci_nmi_reset c Hi) as Hnr.
  pose proof (ci_irq_reset c Hi) as Hqr. pose proof (ci_reset_name c Hi) as Hnm.
  set (bb := length (mainBlocks (mod_ c))) in *.
  set (c' := LabeledStatementCompile L c) in *.
  destruct (String.eqb L (nmiLabelName c)) eqn:E1;
    [| destruct (String.eqb_spec L (resetLabelName c)) as [E2|E2];
       [| destruct (String.eqb L (irqLabelName c)) eqn:E3]];
    destruct H as (Hb & Hcur & Hnb & Hrb & Hib);
    constructor; rewrite ?Hb, ?Hcur, ?Hnb, ?Hrb, ?Hib, ?Hrn, ?length_alter, ?HBl,
                   ?names_alter, ?HBn;
    try (intros b0 [= <-]; lia);
    try (intros b0 Hb0; first [specialize (Hn _ Hb0)|specialize (Hr _ Hb0)
                               |specialize (Hq _ Hb0)]; lia);
    try discriminate;
    try (rewrite list_lookup_alter_ne by lia; exact HBe);
    try exact HBe;
    try (by apply closedExcept_close);
    try exact HBc.
  all: try (intros a b0 Ha Hb0; injection Ha as <-; specialize (Hr _ Hb0); lia).
  all: try (intros a b0 Ha Hb0; injection Hb0 as <-;
            first [specialize (Hn _ Ha)|specialize (Hq _ Ha)]; lia).
  all: try (intros a b0 Ha Hb0; first [exact (Hnr a b0 Ha Hb0)|exact (Hqr a b0 Ha Hb0)]).
  all: try (intros b0 Hb0; rewrite lookup_names_old
              by (rewrite length_map; specialize (Hr _ Hb0); lia); by apply Hnm).
  intros b0 [= <-]. rewrite <- E2. unfold bb.
  rewrite <- (length_map bbName). apply lookup_names_new.
Qed.

(** The labels of [nodes] that the second pass turns into blocks: those
    that own no data global. *)
Definition codeLabels (c : Compilation) (nodes : list Node) : list string :=
  filter (fun L => labeledData c !! L = None) (labelNames nodes).

(** What one traversal in compile mode does, seen from outside. *)
Definition codeSteps (nodes : list Node) (c c' : Compilation) : Prop :=
  sameData c c'
  /\ (exists es, Errors c' = Errors c ++ es)
  /\ map bbName (mainBlocks (mod_ c'))
     = map bbName (mainBlocks (mod_ c)) ++ codeLabels c nodes
  /\ (forall b, nmiBlock c' = Some b ->
        nmiBlock c = Some b \/ nmiLabelName c ∈ labelNames nodes)
  /\ (forall b, resetBlock c' = Some b ->
        resetBlock c = Some b \/ resetLabelName c ∈ labelNames nodes)
  /\ (forall b, irqBlock c' = Some b ->
        irqBlock c = Some b \/ irqLabelName c ∈ labelNames nodes).

Lemma labelNames_cons n rest :
  labelNames (n :: rest) = labelNames [n] ++ labelNames rest.
Proof. unfold labelNames. simpl. by rewrite app_nil_r. Qed.

Lemma codeSteps_nil c : codeSteps [] c c.
Proof.
  unfold codeSteps, codeLabels. simpl. rewrite app_nil_r.
  split; [apply sameData_refl|]. split; [by exists []; rewrite app_nil_r|].
  repeat split; auto.
Qed.

Lemma codeSteps_label L c :
  codeSteps [LabeledStatement L] c (LabeledStatementCompile L c).
Proof.
  unfold codeSteps, codeLabels. cbn [labelNames flat_map app].
  destruct (labeledData c !! L) eqn:Hd.
  - rewrite LabeledStatementCompile_data by (by rewrite Hd).
    rewrite filter_cons_False by (by rewrite Hd). rewrite filter_nil, app_nil_r.
    split; [apply sameData_refl|]. split; [by exists []; rewrite app_nil_r|].
    repeat split; auto.
  - rewrite filter_cons_True by done. rewrite filter_nil.
    pose proof (LabeledStatementCompile_code L c Hd) as (Hs & He & H).
    split; [exact Hs|]. split; [by exists []; rewrite He, app_nil_r|].
    destruct (String.eqb_spec L (nmiLabelName c)) as [E1|E1];
      [| destruct (String.eqb_spec L (resetLabelName c)) as [E2|E2];
         [| destruct (String.eqb_spec L (irqLabelName c)) as [E3|E3]]];
      destruct H as (Hb & Hcur & Hnb & Hrb & Hib);
      rewrite Hb, Hnb, Hrb, Hib, ?names_alter, blocksWith_names;
      (split; [reflexivity|]);
      repeat split; intros b0 Hb0; auto;
      right; subst; apply list_elem_of_singleton; reflexivity.
Qed.

Lemma codeSteps_trans n rest c c1 c2 :
  codeSteps [n] c c1 -> codeSteps rest c1 c2 -> codeSteps (n :: rest) c c2.
Proof.
  intros (Hs1 & [e1 He1] & Hn1 & Hv1 & Hr1 & Hi1)
         (Hs2 & [e2 He2] & Hn2 & Hv2 & Hr2 & Hi2).
  pose proof Hs1 as (Hld & Hnl & Hrl & Hil & _).
  unfold codeSteps, codeLabels in *.
  rewrite Hld in Hn2. rewrite Hnl in Hv2. rewrite Hrl in Hr2. rewrite Hil in Hi2.
  rewrite !(labelNames_cons n rest).
  split; [by apply (sameData_trans c c1 c2)|].
  split; [exists (e1 ++ e2); by rewrite He2, He1, app_assoc|].
  split; [by rewrite Hn2, Hn1, filter_app, app_assoc|].
  repeat split; intros b Hb; rewrite elem_of_app.
  - destruct (Hv2 b Hb) as [H|H]; [|by auto].
    destruct (Hv1 b H); auto.
  - destruct (Hr2 b Hb) as [H|H]; [|by auto].
    destruct (Hr1 b H); auto.
  - destruct (Hi2 b Hb) as [H|H]; [|by auto].
    destruct (Hi1 b H); auto.
Qed.

Lemma visitForCompile_steps n c : codeSteps [n] c (visitForCompile n c).
Proof.
  destruct n as [items off|items|L|k|]; cbn [visitForCompile];
    try apply codeSteps_nil; try apply codeSteps_label.
  unfold codeSteps, codeLabels, InstructionCompile. simpl. rewrite app_nil_r.
  split; [by repeat split|]. split; [by eexists|]. repeat split; auto.
Qed.

Lemma visitForCompile_inv n c : codeInv c -> codeInv (visitForCompile n c).
Proof.
  intros Hi. destruct n as [items off|items|L|k|]; cbn [visitForCompile]; try done.
  - by apply LabeledStatementCompile_inv.
  - destruct Hi. by constructor.
Qed.

Lemma walk_code nodes : forall c,
  mode c = compileMode -> codeInv c ->
  codeInv (walk nodes c) /\ codeSteps nodes c (walk nodes c).
Proof.
  induction nodes as [|n rest IH]; intros c Hm Hi.
  - split; [done|apply codeSteps_nil].
  - cbn [walk VisitEnd]. unfold Visit. rewrite Hm.
    pose proof (visitForCompile_steps n c) as Hs.
    pose proof (visitForCompile_inv n c Hi) as Hi1.
    assert (Hm1 : mode (visitForCompile n c) = compileMode).
    { destruct Hs as ((_&_&_&_&_&Hmode&_) & _). by rewrite Hmode. }
    destruct (IH _ Hm1 Hi1) as [Hi2 Hs2].
    split; [exact Hi2|]. by apply (codeSteps_trans n rest c _ _ Hs).
Qed.

(** ** From the first pass to the second *)

(** What the first pass never touches. *)
Definition codeFields (c : Compilation) :=
  (mainBlocks (mod_ c), functions (mod_ c), modName (mod_ c), builder c,
   currentBlock c, nmiBlock c, resetBlock c, irqBlock c,
   nmiLabelName c, resetLabelName c, irqLabelName c,
   calls c, mode c, basicBlocks c, Errors c).

Lemma dataStop_fields c : codeFields (dataStop c) = codeFields c.
Proof. unfold dataStop. by repeat case_match. Qed.

Lemma visitForDataStmts_fields n c :
  codeFields (visitForDataStmts n c) = codeFields c.
Proof.
  destruct n as [items off|items|L|k|]; cbn [visitForDataStmts];
    try apply dataStop_fields.
  unfold dataAddStmt. case_match; [done|]. by rewrite dataAddItems_appends.
Qed.

Lemma walk_data_fields nodes : forall c,
  mode c = dataStmtMode -> codeFields (walk nodes c) = codeFields c.
Proof.
  induction nodes as [|n rest IH]; intros c Hm; [done|].
  cbn [walk VisitEnd]. unfold Visit. rewrite Hm.
  pose proof (visitForDataStmts_fields n c) as Hf.
  rewrite IH; [exact Hf|].
  unfold codeFields in Hf. unfold VisitEnd. congruence.
Qed.

Lemma dataPass_fields p : codeFields (dataPass p) = codeFields (NewCompilation p).
Proof. unfold dataPass. by rewrite walk_data_fields. Qed.

(** The state in which the entry points are looked up and the second pass
    starts: [Entry] is the only block and nothing is resolved yet. *)
Definition startState (c : Compilation) : Prop :=
  mainBlocks (mod_ c) = [entryBlock]
  /\ currentBlock c = None
  /\ nmiBlock c = None /\ resetBlock c = None /\ irqBlock c = None
  /\ calls c = [] /\ basicBlocks c = ∅.

(** What the prologue and the entry-point look-ups leave alone. *)
Definition sameTables (c c' : Compilation) : Prop :=
  labeledData c' = labeledData c
  /\ globals (mod_ c') = globals (mod_ c)
  /\ Warnings c' = Warnings c.

Lemma prologue_start p :
  startState (prologue (dataPass p)).1
  /\ (prologue (dataPass p)).2 = 0%nat
  /\ sameTables (dataPass p) (prologue (dataPass p)).1
  /\ nmiLabelName (prologue (dataPass p)).1 = ""
  /\ resetLabelName (prologue (dataPass p)).1 = ""
  /\ irqLabelName (prologue (dataPass p)).1 = "".
Proof.
  pose proof (dataPass_fields p) as Hf. unfold codeFields in Hf.
  destruct (dataPass p) as [W E p0 [nm gl fs blks] b ld cv cl md bbs cur nl rl il nb rb ib cs].
  simpl in Hf. simplify_eq.
  unfold startState, sameTables. cbn. repeat split.
Qed.

Lemma Compile_unfold env p filename :
  Compile env p filename
  = obind (setUpEntryPoints p (prologue (dataPass p)).1) (fun c =>
      Done (hookUp env filename (prologue (dataPass p)).2
              (closeFinalBlock (codePass p c)))).
Proof. unfold Compile. by destruct (prologue (dataPass p)). Qed.

(** *** The entry-point look-ups *)

Lemma setUpEntryPoint_Done p addr store c c' :
  setUpEntryPoint p addr store c = Done c' ->
  (exists msg, entryPointError p addr = Some msg /\ c' = addError msg c)
  \/ (entryPointError p addr = None /\ exists name, c' = store name c).
Proof.
  unfold setUpEntryPoint, entryPointError.
  destruct (offsets p !! addr) as [[items off|[|[v|t|l] items]|L|k|]|];
    intros [= <-]; eauto.
Qed.

Lemma setUpEntryPoint_total p addr store c :
  entryPointEmpty p addr = false ->
  exists c', setUpEntryPoint p addr store c = Done c'.
Proof.
  unfold setUpEntryPoint, entryPointEmpty.
  destruct (offsets p !! addr) as [[items off|[|[v|t|l] items]|L|k|]|];
    intros H; try discriminate H; eauto.
Qed.

Definition noEmptyVector (p : Program) : Prop :=
  entryPointEmpty p 0xfffa = false
  /\ entryPointEmpty p 0xfffc = false
  /\ entryPointEmpty p 0xfffe = false.

Lemma setUpEntryPoints_total p c :
  noEmptyVector p -> exists c', setUpEntryPoints p c = Done c'.
Proof.
  intros (H1 & H2 & H3). unfold setUpEntryPoints.
  destruct (setUpEntryPoint_total p 0xfffa set_nmiLabelName c H1) as [c1 ->].
  cbn [obind].
  destruct (setUpEntryPoint_total p 0xfffc set_resetLabelName c1 H2) as [c2 ->].
  cbn [obind].
  apply (setUpEntryPoint_total p 0xfffe set_irqLabelName c2 H3).
Qed.

(** The look-ups change the error list and the three label names only; a
    vector whose look-up fails leaves its message in the error list and
    its label name as it was. *)
Lemma setUpEntryPoints_facts p c c' :
  setUpEntryPoints p c = Done c' ->
  (startState c -> startState c')
  /\ sameTables c c'
  /\ (forall msg, entryPointError p 0xfffa = Some msg ->
        msg ∈ Errors c' /\ nmiLabelName c' = nmiLabelName c)
  /\ (forall msg, entryPointError p 0xfffc = Some msg ->
        msg ∈ Errors c' /\ resetLabelName c' = resetLabelName c)
  /\ (forall msg, entryPointError p 0xfffe = Some msg ->
        msg ∈ Errors c' /\ irqLabelName c' = irqLabelName c).
Proof.
  unfold setUpEntryPoints. intros H.
  destruct (setUpEntryPoint p 0xfffa set_nmiLabelName c) as [c1|] eqn:E1;
    [|discriminate H]. cbn [obind] in H.
  destruct (setUpEntryPoint p 0xfffc set_resetLabelName c1) as [c2|] eqn:E2;
    [|discriminate H]. cbn [obind] in H.
  apply setUpEntryPoint_Done in E1, E2, H.
  unfold startState, sameTables.
  destruct E1 as [(m1 & F1 & ->)|(F1 & n1 & ->)];
    destruct E2 as [(m2 & F2 & ->)|(F2 & n2 & ->)];
    destruct H as [(m3 & F3 & ->)|(F3 & n3 & ->)];
    rewrite F1, F2, F3; cbn;
    (split; [done|]); (split; [done|]);
    repeat split; simplify_eq; try done;
    rewrite ?elem_of_app, !list_elem_of_singleton; auto.
Qed.

(** *** Closing the last block and hooking up *)

Lemma closeFinalBlock_facts c :
  codeInv c ->
  closedExcept None (mainBlocks (mod_ (closeFinalBlock c)))
  /\ mainBlocks (mod_ (closeFinalBlock c)) !! 0%nat = Some entryBlock
  /\ map bbName (mainBlocks (mod_ (closeFinalBlock c)))
     = map bbName (mainBlocks (mod_ c))
  /\ nmiBlock (closeFinalBlock c) = nmiBlock c
  /\ resetBlock (closeFinalBlock c) = resetBlock c
  /\ irqBlock (closeFinalBlock c) = irqBlock c
  /\ Errors (closeFinalBlock c) = Errors c
  /\ sameData c (closeFinalBlock c).
Proof.
  intros Hi. unfold closeFinalBlock.
  pose proof (ci_closed c Hi) as Hc. pose proof (ci_entry c Hi) as He.
  destruct (currentBlock c) as [cur|] eqn:E.
  - destruct (ci_cur c Hi cur E) as [H1 H2].
    unfold CreateUnreachable. rewrite mainBlocks_emit.
    cbn [builder SetInsertPointAtEnd set_builder].
    replace (mod_ (SetInsertPointAtEnd cur c)) with (mod_ c) by (by destruct c).
    split; [by apply closedExcept_close|].
    split; [by rewrite list_lookup_alter_ne by lia|].
    split; [apply names_alter|].
    unfold emit, SetInsertPointAtEnd. cbn. by repeat split.
  - repeat split; done.
Qed.

Lemma hookUp_resolved env filename entry c n r i :
  nmiBlock c = Some n -> resetBlock c = Some r -> irqBlock c = Some i ->
  mainBlocks (mod_ (hookUp env filename entry c))
  = alter (addInstr (Br r)) entry (mainBlocks (mod_ c))
  /\ (exists rest, calls (hookUp env filename entry c)
                   = calls c ++ CallVerifyModule :: rest)
  /\ labeledData (hookUp env filename entry c) = labeledData c
  /\ basicBlocks (hookUp env filename entry c) = basicBlocks c.
Proof.
  intros Hn Hr Hq. unfold hookUp. rewrite Hn, Hr, Hq.
  unfold CreateBr, emit, SetInsertPointAtEnd, call, addError.
  cbn -[alter].
  repeat case_match; cbn -[alter]; (split; [reflexivity|]);
    (split; [|by split]); rewrite <- ?app_assoc; cbn [app]; eauto.
Qed.

(** *** The whole of [Compile] *)

Lemma startState_inv c : startState c -> codeInv (set_mode compileMode c).
Proof.
  intros (Hb & Hc & Hn & Hr & Hq & _).
  constructor; cbn; rewrite ?Hb, ?Hc, ?Hn, ?Hr, ?Hq; try done.
  intros i blk Hi Hl. destruct i as [|i]; [lia|]. done.
Qed.

Lemma Compile_Done env p filename c1 :
  setUpEntryPoints p (prologue (dataPass p)).1 = Done c1 ->
  Compile env p filename
  = Done (hookUp env filename 0 (closeFinalBlock (codePass p c1))).
Proof.
  intros H. rewrite Compile_unfold, H. cbn [obind].
  by destruct (prologue_start p) as (_ & -> & _).
Qed.

(** The state when the second pass is over and its last block closed. *)
Lemma afterCodePass p c1 :
  setUpEntryPoints p (prologue (dataPass p)).1 = Done c1 ->
  let c2 := closeFinalBlock (codePass p c1) in
  startState c1
  /\ codeInv (codePass p c1)
  /\ codeSteps (Ast p) (set_mode compileMode c1) (codePass p c1)
  /\ closedExcept None (mainBlocks (mod_ c2))
  /\ mainBlocks (mod_ c2) !! 0%nat = Some entryBlock
  /\ map bbName (mainBlocks (mod_ c2)) = "Entry" :: codeLabels c1 (Ast p)
  /\ nmiBlock c2 = nmiBlock (codePass p c1)
  /\ resetBlock c2 = resetBlock (codePass p c1)
  /\ irqBlock c2 = irqBlock (codePass p c1)
  /\ calls c2 = []
  /\ basicBlocks c2 = ∅
  /\ labeledData c2 = labeledData (dataPass p)
  /\ labeledData c1 = labeledData (dataPass p)
  /\ resetLabelName c2 = resetLabelName c1
  /\ exists es, Errors c2 = Errors c1 ++ es.
Proof.
  intros H c2.
  destruct (prologue_start p) as (Hst & _ & (Hld0 & _) & _).
  destruct (setUpEntryPoints_facts p _ c1 H) as (Hst1 & (Hld1 & _) & _).
  specialize (Hst1 Hst).
  pose proof (startState_inv c1 Hst1) as Hi0.
  destruct (walk_code (Ast p) (set_mode compileMode c1) eq_refl Hi0) as [Hi Hs].
  fold (codePass p c1) in Hi, Hs.
  destruct (closeFinalBlock_facts _ Hi)
    as (Hcl & He & Hnm & Hn & Hr & Hq & Herr & Hsd).
  fold c2 in Hcl, He, Hnm, Hn, Hr, Hq, Herr, Hsd.
  pose proof Hs as (Hs1 & [es Hes] & Hnames & _).
  pose proof (sameData_trans _ _ _ Hs1 Hsd) as (Hld & _ & Hrl & _ & Hcalls & _ & Hbb & _).
  pose proof Hst1 as (Hb1 & _ & _ & _ & _ & Hc1 & Hbb1).
  split_and!; try done.
  all: try (rewrite Hnm, Hnames; cbn; by rewrite Hb1).
  all: try (by rewrite Hcalls).
  all: try (by rewrite Hbb).
  all: try (rewrite Hld; cbn; by rewrite Hld1, Hld0).
  all: try (by rewrite Hld1, Hld0).
  exists es. by rewrite Herr, Hes.
Qed.

Lemma drop1_alter0 (f : BasicBlock -> BasicBlock) (l : list BasicBlock) :
  drop 1 (alter f 0%nat l) = drop 1 l.
Proof. by destruct l. Qed.

(** [hookUp] leaves the blocks of the labels as they are. *)
Lemma labelBlocks_hookUp env filename c :
  labelBlocks (hookUp env filename 0 c) = labelBlocks c.
Proof.
  unfold labelBlocks.
  destruct (nmiBlock c) as [n|] eqn:Hn; [|by unfold hookUp; rewrite Hn].
  destruct (resetBlock c) as [r|] eqn:Hr; [|by unfold hookUp; rewrite Hn, Hr].
  destruct (irqBlock c) as [i|] eqn:Hq; [|by unfold hookUp; rewrite Hn, Hr, Hq].
  destruct (hookUp_resolved env filename 0 c n r i Hn Hr Hq) as (-> & _).
  apply drop1_alter0.
Qed.

Lemma tables_hookUp env filename c :
  labeledData (hookUp env filename 0 c) = labeledData c
  /\ basicBlocks (hookUp env filename 0 c) = basicBlocks c.
Proof.
  destruct (nmiBlock c) as [n|] eqn:Hn; [|by unfold hookUp; rewrite Hn].
  destruct (resetBlock c) as [r|] eqn:Hr; [|by unfold hookUp; rewrite Hn, Hr].
  destruct (irqBlock c) as [i|] eqn:Hq; [|by unfold hookUp; rewrite Hn, Hr, Hq].
  by destruct (hookUp_resolved env filename 0 c n r i Hn Hr Hq) as (_ & _ & -> & ->).
Qed.

(** ** Sample inputs *)

(** A backend that accepts everything. *)
Definition acceptingBackend : Backend :=
  mkBackend (fun _ => None) (fun _ => None) (fun _ => None) (fun _ => None) None.

(** Three vectors naming three labels; [msg] is a label over data. *)
Definition threeVectors : Program :=
  mkProgram
    [LabeledStatement "msg"; DataStatement [StringDataItem "hi"] 0;
     LabeledStatement "nmi"; LabeledStatement "reset";
     Instruction ImpliedInstruction; LabeledStatement "irq"]
    (list_to_map
       [(0xfffa, DataWordStatement [LabelCall "nmi"]);
        (0xfffc, DataWordStatement [LabelCall "reset"]);
        (0xfffe, DataWordStatement [LabelCall "irq"])]).

(** The reset vector holds a single-byte declaration. *)
Definition byteAtReset : Program :=
  mkProgram
    [LabeledStatement "start"; Instruction ImpliedInstruction]
    (list_to_map
       [(0xfffa, DataWordStatement [LabelCall "start"]);
        (0xfffc, DataStatement [IntegerDataItem 0] 0xfffc);
        (0xfffe, DataWordStatement [LabelCall "start"])]).

Lemma threeVectors_noEmptyVector : noEmptyVector threeVectors.
Proof. by repeat split. Qed.

Lemma byteAtReset_noEmptyVector : noEmptyVector byteAtReset.
Proof. by repeat split. Qed.

(** ** The claims about the second pass *)












Lemma names_drop1 (l : list BasicBlock) :
  map bbName (drop 1 l) = drop 1 (map bbName l).
Proof. by destruct l. Qed.

(** "The label is present in the label-to-global map or in the
    label-to-block map, never in both." *)
Definition inExactlyOneMap (c : Compilation) (L : string) : Prop :=
  (is_Some (labeledData c !! L) \/ is_Some (basicBlocks c !! L))
  /\ ~ (is_Some (labeledData c !! L) /\ is_Some (basicBlocks c !! L)).

(** C7 as stated fails: a label that owns a block is not present in the
    label-to-block map, because [basicBlocks] is never written.  In the
    sample program the label [reset] gets its block and is a key of
    neither map. *)
Lemma C7_code_label_in_neither_map :
  exists c, Compile acceptingBackend threeVectors "out.bc" = Done c
    /\ "reset" ∈ labelNames (Ast threeVectors)
    /\ "reset" ∈ map bbName (labelBlocks c)
    /\ ~ inExactlyOneMap c "reset".
Proof.
  eexists. split; [vm_compute; reflexivity|].
  split; [vm_compute; repeat constructor|].
  split; [vm_compute; repeat constructor|].
  intros [[[g Hg]|[b Hb]] _].
  - vm_compute in Hg. discriminate Hg.
  - vm_compute in Hb. discriminate Hb.
Qed.

(** C7, amended.  When [Compile] returns, every label of the program either
    owns a data global (it is a key of [labeledData]) or owns a basic block
    (a block of its name was added to [main] by the second pass), never
    both: the blocks the pass added are, in source order, exactly the
    labels that are no key of [labeledData].  The label-to-block map
    [basicBlocks] is never written and stays empty. *)
Theorem C7_label_is_data_or_code (env : Backend) (p : Program) (filename : string) :
  noEmptyVector p ->
  exists c, Compile env p filename = Done c
    /\ labeledData c = labeledData (dataPass p)
    /\ basicBlocks c = ∅
    /\ map bbName (labelBlocks c)
       = filter (fun L => labeledData c !! L = None) (labelNames (Ast p))
    /\ (forall L, L ∈ labelNames (Ast p) ->
          (is_Some (labeledData c !! L) /\ L ∉ map bbName (labelBlocks c))
          \/ (labeledData c !! L = None /\ L ∈ map bbName (labelBlocks c)))
    /\ (forall L, ~ (is_Some (labeledData c !! L)
                     /\ L ∈ map bbName (labelBlocks c)))
    /\ (forall L, ~ (is_Some (labeledData c !! L)
                     /\ is_Some (basicBlocks c !! L))).
Proof.
  intros Hne.
  destruct (setUpEntryPoints_total p (prologue (dataPass p)).1 Hne) as [c1 H].
  destruct (afterCodePass p c1 H)
    as (_ & _ & _ & _ & _ & Hnames & _ & _ & _ & _ & Hbb & Hld & Hld1 & _).
  set (c2 := closeFinalBlock (codePass p c1)) in *.
  destruct (tables_hookUp env filename c2) as [Hld' Hbb'].
  set (c := hookUp env filename 0 c2) in *.
  assert (Hblocks : map bbName (labelBlocks c)
                    = filter (fun L => labeledData c !! L = None) (labelNames (Ast p))).
  { unfold c. rewrite labelBlocks_hookUp. unfold labelBlocks.
    rewrite names_drop1, Hnames. cbn [drop]. unfold codeLabels.
    fold c. by rewrite Hld', Hld, Hld1. }
  exists c. split; [by apply Compile_Done|].
  split; [by rewrite Hld'|]. split; [by rewrite Hbb'|].
  split; [exact Hblocks|]. rewrite Hblocks. split_and!.
  - intros L HL. destruct (labeledData c !! L) eqn:E.
    + left. split; [by eexists|]. rewrite list_elem_of_filter. intros [? _]. congruence.
    + right. split; [done|]. by rewrite list_elem_of_filter.
  - intros L [[g Hg] HL]. apply list_elem_of_filter in HL as [HL _]. congruence.
  - intros L [_ [b0 Hb0]]. rewrite Hbb', Hbb in Hb0. by rewrite lookup_empty in Hb0.
Qed.

(** C7, amended, on the sample program: [msg] owns a global, the three vector labels
    own blocks. *)
Lemma C7_data_or_code_witness :
  exists c, Compile acceptingBackend threeVectors "out.bc" = Done c
    /\ labeledData c = labeledData (dataPass threeVectors)
    /\ basicBlocks c = ∅
    /\ map bbName (labelBlocks c)
       = filter (fun L => labeledData c !! L = None) (labelNames (Ast threeVectors))
    /\ (forall L, L ∈ labelNames (Ast threeVectors) ->
          (is_Some (labeledData c !! L) /\ L ∉ map bbName (labelBlocks c))
          \/ (labeledData c !! L = None /\ L ∈ map bbName (labelBlocks c)))
    /\ (forall L, ~ (is_Some (labeledData c !! L)
                     /\ L ∈ map bbName (labelBlocks c)))
    /\ (forall L, ~ (is_Some (labeledData c !! L)
                     /\ is_Some (basicBlocks c !! L))).
Proof.
  apply (C7_label_is_data_or_code acceptingBackend threeVectors "out.bc").
  repeat split; reflexivity.
Defined.

(** C4.  After the second pass, if the nmi block is unset, or else the
    reset block, or else the irq block, [Compile] appends the
    missing-entry-point error of that vector and returns at once: no
    backend call is made, the module stays as it was.  When all three are
    set, the branch appended to [Entry] goes to the reset block, which
    bears the reset label's name and is neither the nmi nor the irq block,
    and verification is the first backend call. *)
Theorem C4_hook_up_entry_points (env : Backend) (p : Program) (filename : string) :
  noEmptyVector p ->
  exists c1 c,
    setUpEntryPoints p (prologue (dataPass p)).1 = Done c1
    /\ Compile env p filename = Done c
    /\ let c2 := closeFinalBlock (codePass p c1) in
       calls c2 = []
       /\ (nmiBlock c2 = None ->
           c = addError "missing nmi entry point" c2 /\ calls c = [])
       /\ (is_Some (nmiBlock c2) -> resetBlock c2 = None ->
           c = addError "missing reset entry point" c2 /\ calls c = [])
       /\ (is_Some (nmiBlock c2) -> is_Some (resetBlock c2) -> irqBlock c2 = None ->
           c = addError "missing irq entry point" c2 /\ calls c = [])
       /\ (forall n r i,
             nmiBlock c2 = Some n -> resetBlock c2 = Some r -> irqBlock c2 = Some i ->
             mainBlocks (mod_ c) !! 0%nat = Some (addInstr (Br r) entryBlock)
             /\ labelBlocks c = labelBlocks c2
             /\ r <> n /\ r <> i /\ r <> 0%nat
             /\ map bbName (mainBlocks (mod_ c)) !! r = Some (resetLabelName c1)
             /\ exists rest, calls c = CallVerifyModule :: rest).
Proof.
  intros Hne.
  destruct (setUpEntryPoints_total p (prologue (dataPass p)).1 Hne) as [c1 H].
  destruct (afterCodePass p c1 H)
    as (_ & Hi & _ & _ & He & _ & Hn & Hr & Hq & Hcalls & _ & _ & _ & Hrl & _).
  destruct (closeFinalBlock_facts _ Hi) as (_ & _ & Hnm & _).
  exists c1, (hookUp env filename 0 (closeFinalBlock (codePass p c1))).
  split; [exact H|]. split; [by apply Compile_Done|].
  set (c2 := closeFinalBlock (codePass p c1)) in *. cbv zeta.
  split; [exact Hcalls|]. split_and!.
  - intros E. unfold hookUp. rewrite E. split; [done|]. exact Hcalls.
  - intros [n En] E. unfold hookUp. rewrite En, E. split; [done|]. exact Hcalls.
  - intros [n En] [r Er] E. unfold hookUp. rewrite En, Er, E.
    split; [done|]. exact Hcalls.
  - intros n r i En Er Eq.
    destruct (hookUp_resolved env filename 0 c2 n r i En Er Eq)
      as (Hb & [rest Hrest] & _).
    rewrite Hn in En. rewrite Hr in Er. rewrite Hq in Eq.
    destruct (ci_reset _ Hi r Er) as [Hr1 Hr2].
    split_and!.
    + rewrite Hb, list_lookup_alter_eq, He. reflexivity.
    + apply labelBlocks_hookUp.
    + intros ->. by apply (ci_nmi_reset _ Hi n n).
    + intros ->. by apply (ci_irq_reset _ Hi i i).
    + lia.
    + rewrite Hb, names_alter, Hnm.
      rewrite (ci_reset_name _ Hi r Er). f_equal.
      rewrite <- Hrl. unfold c2.
      by destruct (closeFinalBlock_facts _ Hi)
        as (_ & _ & _ & _ & _ & _ & _ & (_ & _ & -> & _)).
    + exists rest. by rewrite Hrest, Hcalls.
Qed.

(** C4 on the sample program, where all three blocks are set. *)
Lemma C4_hook_up_witness :
  exists c1 c,
    setUpEntryPoints threeVectors (prologue (dataPass threeVectors)).1 = Done c1
    /\ Compile acceptingBackend threeVectors "out.bc" = Done c
    /\ let c2 := closeFinalBlock (codePass threeVectors c1) in
       calls c2 = []
       /\ (nmiBlock c2 = None ->
           c = addError "missing nmi entry point" c2 /\ calls c = [])
       /\ (is_Some (nmiBlock c2) -> resetBlock c2 = None ->
           c = addError "missing reset entry point" c2 /\ calls c = [])
       /\ (is_Some (nmiBlock c2) -> is_Some (resetBlock c2) -> irqBlock c2 = None ->
           c = addError "missing irq entry point" c2 /\ calls c = [])
       /\ (forall n r i,
             nmiBlock c2 = Some n -> resetBlock c2 = Some r -> irqBlock c2 = Some i ->
             mainBlocks (mod_ c) !! 0%nat = Some (addInstr (Br r) entryBlock)
             /\ labelBlocks c = labelBlocks c2
             /\ r <> n /\ r <> i /\ r <> 0%nat
             /\ map bbName (mainBlocks (mod_ c)) !! r = Some (resetLabelName c1)
             /\ exists rest, calls c = CallVerifyModule :: rest).
Proof.
  apply (C4_hook_up_entry_points acceptingBackend threeVectors "out.bc").
  repeat split; reflexivity.
Defined.

(** ** The claim about failed entry-point look-ups *)




Definition missingEntryPoint : list string :=
  ["missing nmi entry point"; "missing reset entry point"; "missing irq entry point"].


Lemma hookUp_missing env filename c :
  nmiBlock c = None \/ resetBlock c = None \/ irqBlock c = None ->
  calls (hookUp env filename 0 c) = calls c
  /\ exists m, m ∈ missingEntryPoint /\ last (Errors (hookUp env filename 0 c)) = Some m.
Proof.
  intros Hstop.
  assert (Hlast : forall m, last (Errors (addError m c)) = Some m).
  { intros m. unfold addError. cbn. apply last_snoc. }
  unfold hookUp, missingEntryPoint.
  destruct (nmiBlock c) as [n|].
  2:{ split; [done|]. exists "missing nmi entry point".
      split; [|apply Hlast]. apply list_elem_of_here. }
  destruct (resetBlock c) as [r|].
  2:{ split; [done|]. exists "missing reset entry point".
      split; [|apply Hlast]. apply list_elem_of_further, list_elem_of_here. }
  destruct (irqBlock c) as [i|].
  2:{ split; [done|]. exists "missing irq entry point".
      split; [|apply Hlast].
      apply list_elem_of_further, list_elem_of_further, list_elem_of_here. }
  by destruct Hstop as [?|[?|?]].
Qed.






End LoweringFacts.

(** * Further properties of the flat encoder *)

Module ProgExtra.
Import GoStrings Prog ProgFacts.

(** The node assigns the variable [name]. *)
Definition assigns (name : string) (n : Node) : bool :=
  match n with
  | AssignStatement name' _ => String.eqb name' name
  | _ => false
  end.

(** The addressing mode the selector settles on for a statement. *)
Inductive AddressingMode : Type := Implied | Immediate | AbsoluteX | AbsoluteY.

Definition modeEntries (m : AddressingMode) : list (string * Z) :=
  match m with
  | Implied => impliedOpcodeEntries
  | Immediate => immediateOpcodeEntries
  | AbsoluteX => absIndexedXOpcodeEntries
  | AbsoluteY => absIndexedYOpcodeEntries
  end.

Definition modeSize (m : AddressingMode) : Z :=
  match m with
  | Implied => 1
  | Immediate => 2
  | AbsoluteX | AbsoluteY => 3
  end.

(** All table rows, tagged with their mode. *)
Definition allEntries : list (AddressingMode * (string * Z)) :=
  flat_map (fun m => map (fun e => (m, e)) (modeEntries m))
    [Implied; Immediate; AbsoluteX; AbsoluteY].

Lemma Ast_app u nodes1 nodes2 p :
  Ast u (nodes1 ++ nodes2) p = obind (Ast u nodes1 p) (Ast u nodes2).
Proof.
  revert p. induction nodes1 as [|n r IH]; intros p; [done|].
  cbn [app Ast]. destruct (Visit u p n) as [p1|m]; [|done].
  cbn [obind]. apply IH.
Qed.

Lemma Visit_other_variable u p n p' name :
  assigns name n = false ->
  Visit u p n = Done p' ->
  Variables p' !! name = Variables p !! name /\ Labels p' = Labels p.
Proof.
  destruct n as [name' value|s|]; cbn [assigns Visit]; intros Ha H.
  - injection H as <-. cbn. apply String.eqb_neq in Ha.
    by rewrite lookup_insert_ne.
  - destruct (compileInstruction u s) as [[[i|] [e|]]|m]; cbn in H;
      try discriminate H; by injection H as <-.
  - by injection H as <-.
Qed.

Lemma Visit_labels u p n p' : Visit u p n = Done p' -> Labels p' = Labels p.
Proof.
  destruct n as [name' value|s|]; cbn [Visit]; intros H.
  - by injection H as <-.
  - destruct (compileInstruction u s) as [[[i|] [e|]]|m]; cbn in H;
      try discriminate H; by injection H as <-.
  - by injection H as <-.
Qed.

Lemma Ast_other_variable u nodes name : forall p p',
  forallb (fun n => negb (assigns name n)) nodes = true ->
  Ast u nodes p = Done p' ->
  Variables p' !! name = Variables p !! name.
Proof.
  induction nodes as [|n r IH]; intros p p' Hn H.
  - by injection H as <-.
  - cbn in Hn. apply andb_true_iff in Hn as [Hn Hr].
    apply negb_true_iff in Hn.
    cbn [Ast] in H. destruct (Visit u p n) as [p1|m] eqn:E; [|discriminate H].
    cbn [obind] in H. unfold VisitEnd in H.
    rewrite (IH p1 p' Hr H).
    by destruct (Visit_other_variable u p n p1 name Hn E).
Qed.

(** X1.  The last assignment to a variable wins: when the tree (all of
    whose instruction statements the selector covers) holds an assignment
    of [value] to [name] and no later assignment to [name], the collected
    program maps [name] to [value], whatever was assigned before. *)
Theorem last_assignment_wins (u : string -> string) (pre post : list Node)
    (name : string) (value : Z) (p : Program) :
  forallb coveredNode (pre ++ AssignStatement name value :: post) = true ->
  forallb (fun n => negb (assigns name n)) post = true ->
  exists p', Ast u (pre ++ AssignStatement name value :: post) p = Done p'
    /\ Variables p' !! name = Some value.
Proof.
  intros Hc Hpost.
  destruct (Ast_collects u _ p Hc) as (p' & HA & _).
  exists p'. split; [exact HA|].
  rewrite Ast_app in HA.
  destruct (Ast u pre p) as [p1|m]; [|discriminate HA].
  cbn [obind Ast Visit] in HA. unfold VisitEnd in HA.
  rewrite (Ast_other_variable u post name _ p' Hpost HA).
  cbn. apply lookup_insert_eq.
Qed.

Lemma last_assignment_witness :
  exists p',
    Ast (fun s => s)
      ([AssignStatement "v" 1; InstructionNode (ImpliedInstruction "nop" 2)] ++
       AssignStatement "v" 7 :: [AssignStatement "w" 3])
      NewProgram = Done p'
    /\ Variables p' !! "v" = Some 7.
Proof.
  apply (last_assignment_wins (fun s => s)
           [AssignStatement "v" 1; InstructionNode (ImpliedInstruction "nop" 2)]
           [AssignStatement "w" 3] "v" 7 NewProgram); reflexivity.
Defined.

Lemma Ast_labels u nodes : forall p p',
  Ast u nodes p = Done p' -> Labels p' = Labels p.
Proof.
  induction nodes as [|n r IH]; intros p p' H; [by injection H as <-|].
  cbn [Ast] in H. destruct (Visit u p n) as [p1|m] eqn:E; [|discriminate H].
  cbn [obind] in H. unfold VisitEnd in H.
  rewrite (IH _ _ H). by apply (Visit_labels u p n).
Qed.

(** X2.  A name that no statement of the tree assigns is unset in the
    program [ToProgram] returns, and [ToProgram] never fills [Labels]. *)
Theorem unassigned_variable_unset (u : string -> string) (ast : list Node)
    (name : string) (p : Program) (e : option string) :
  forallb (fun n => negb (assigns name n)) ast = true ->
  ToProgram u ast = Done (p, e) ->
  Variables p !! name = None /\ Labels p = ∅.
Proof.
  intros Hn H. unfold ToProgram in H.
  destruct (Ast u ast NewProgram) as [p1|m] eqn:E; [|discriminate H].
  cbn in H. injection H as <- _. split.
  - by rewrite (Ast_other_variable u ast name _ _ Hn E).
  - by rewrite (Ast_labels u ast _ _ E).
Qed.

Lemma unassigned_variable_witness :
  Variables (mkProgram {["v" := 5]} ∅ [] []) !! "w" = None
  /\ Labels (mkProgram {["v" := 5]} ∅ [] []) = ∅.
Proof.
  apply (unassigned_variable_unset (fun s => s) [AssignStatement "v" 5] "w"
           (mkProgram {["v" := 5]} ∅ [] []) None); reflexivity.
Defined.

(** *** Panics *)

Lemma Visit_uncovered u p n :
  coveredNode n = false -> Visit u p n = Panic "Unrecognized instruction type".
Proof.
  destruct n as [name value|[op l|op l|op r l|op]|]; cbn [coveredNode coveredInstruction];
    intros H; try discriminate H. reflexivity.
Qed.

Lemma Ast_panics u nodes : forall p,
  forallb coveredNode nodes = false ->
  Ast u nodes p = Panic "Unrecognized instruction type".
Proof.
  induction nodes as [|n r IH]; intros p H; [discriminate H|].
  cbn [forallb] in H. cbn [Ast].
  destruct (coveredNode n) eqn:E.
  - destruct (Visit_covered u p n E) as (p1 & -> & _). cbn [obind]. apply IH, H.
  - by rewrite (Visit_uncovered u p n E).
Qed.

(** X3.  [ToProgram] panics exactly when the tree holds an instruction
    statement of a type [compileInstruction] has no case for, and then
    with the message [Unrecognized instruction type]; for every other tree
    it returns. *)
Theorem ToProgram_panics_iff_uncovered (u : string -> string) (ast : list Node) :
  (ToProgram u ast = Panic "Unrecognized instruction type"
   <-> forallb coveredNode ast = false)
  /\ (forall m, ToProgram u ast = Panic m -> m = "Unrecognized instruction type").
Proof.
  unfold ToProgram. destruct (forallb coveredNode ast) eqn:E.
  - destruct (Ast_collects u ast NewProgram E) as (p & -> & _). cbn.
    split; [split; intros H; discriminate H|intros m H; discriminate H].
  - rewrite (Ast_panics u ast NewProgram E). cbn.
    split; [done|]. by intros m [= <-].
Qed.

(** *** The encoding *)

Lemma entries_lookup (entries : list (string * Z)) k opc :
  (list_to_map entries : gmap string Z) !! k = Some opc -> (k, opc) ∈ entries.
Proof. apply elem_of_list_to_map_2. Qed.

(** The addressing mode [compileInstruction] looks a statement up in. *)
Definition modeOf (u : string -> string) (s : InstructionStatement)
    : option AddressingMode :=
  match s with
  | ImpliedInstruction _ _ => Some Implied
  | ImmediateInstruction _ _ => Some Immediate
  | AbsoluteWithLabelIndexedInstruction _ reg _ =>
      if String.eqb (ToLower u reg) "x" then Some AbsoluteX
      else if String.eqb (ToLower u reg) "y" then Some AbsoluteY
      else None
  | OtherInstruction _ => None
  end.

(** What a successful selection is made of: the mode of the statement and
    a row of that mode's table under the lower-cased mnemonic. *)
Lemma compileInstruction_row u s i e :
  compileInstruction u s = Done (Some i, e) ->
  e = None /\ StatementAst i = s
  /\ exists m, modeOf u s = Some m
       /\ OpSize i = modeSize m
       /\ (ToLower u (OpName s), OpCode i) ∈ modeEntries m.
Proof.
  destruct s as [op l|op l|op reg l|op]; unfold compileInstruction, modeOf;
    cbn [OpName].
  - destruct (impliedOpcode !! ToLower u op) as [opc|] eqn:E; intros [= <- <-].
    split; [done|]. split; [done|]. exists Implied.
    split; [done|]. split; [done|]. by apply entries_lookup.
  - destruct (immediateOpcode !! ToLower u op) as [opc|] eqn:E; intros [= <- <-].
    split; [done|]. split; [done|]. exists Immediate.
    split; [done|]. split; [done|]. by apply entries_lookup.
  - destruct (String.eqb (ToLower u reg) "x").
    { destruct (absIndexedXOpcode !! ToLower u op) as [opc|] eqn:E; intros [= <- <-].
      split; [done|]. split; [done|]. exists AbsoluteX.
      split; [done|]. split; [done|]. by apply entries_lookup. }
    destruct (String.eqb (ToLower u reg) "y"); [|intros [= <-]].
    destruct (absIndexedYOpcode !! ToLower u op) as [opc|] eqn:E; intros [= <- <-].
    split; [done|]. split; [done|]. exists AbsoluteY.
    split; [done|]. split; [done|]. by apply entries_lookup.
  - intros H; discriminate H.
Qed.

Lemma row_in_allEntries m k opc :
  (k, opc) ∈ modeEntries m -> (m, (k, opc)) ∈ allEntries.
Proof.
  intros H. unfold allEntries. apply list_elem_of_In, in_flat_map.
  exists m. split; [by destruct m; cbn; auto 10|].
  apply in_map, list_elem_of_In, H.
Qed.

Lemma allEntries_bytes :
  Forall (fun r => 0 <= r.2.2 <= 255) allEntries.
Proof. unfold allEntries. cbn. repeat constructor; cbn; lia. Qed.

Lemma allEntries_opcodes_NoDup : NoDup (map (fun r => r.2.2) allEntries).
Proof. apply (bool_decide_eq_true_1 _). vm_compute. reflexivity. Qed.

Lemma NoDup_map_inj {A B} (f : A -> B) (l : list A) x y :
  NoDup (map f l) -> x ∈ l -> y ∈ l -> f x = f y -> x = y.
Proof.
  induction l as [|a r IH]; intros Hnd Hx Hy E.
  - by apply elem_of_nil in Hx.
  - cbn in Hnd. apply NoDup_cons in Hnd as [Ha Hr].
    apply elem_of_cons in Hx as [->|Hx]; apply elem_of_cons in Hy as [->|Hy].
    + done.
    + destruct Ha. rewrite E. apply list_elem_of_In, in_map, list_elem_of_In, Hy.
    + destruct Ha. rewrite <- E. apply list_elem_of_In, in_map, list_elem_of_In, Hx.
    + by apply IH.
Qed.

(** X4.  Whenever selection succeeds, the error is nil, the instruction
    refers to the statement it came from, its opcode fits in one byte, and
    its size is the one of the statement's addressing mode: 1 for implied,
    2 for immediate, 3 for absolute indexed. *)
Theorem selected_instruction_wellformed (u : string -> string)
    (s : InstructionStatement) (i : Instruction) (e : option string) :
  compileInstruction u s = Done (Some i, e) ->
  e = None
  /\ StatementAst i = s
  /\ 0 <= OpCode i <= 255
  /\ OpSize i = match s with
                | ImpliedInstruction _ _ => 1
                | ImmediateInstruction _ _ => 2
                | AbsoluteWithLabelIndexedInstruction _ _ _ => 3
                | OtherInstruction _ => 0
                end.
Proof.
  intros H. destruct (compileInstruction_row u s i e H)
    as (He & Hs & m & Hm & Hsize & Hrow).
  split; [exact He|]. split; [exact Hs|]. split.
  - pose proof allEntries_bytes as Hb. rewrite Forall_forall in Hb.
    apply (Hb _ (row_in_allEntries m _ _ Hrow)).
  - rewrite Hsize. destruct s as [op l|op l|op reg l|op]; cbn in Hm.
    + by injection Hm as <-.
    + by injection Hm as <-.
    + destruct (String.eqb _ "x"); [by injection Hm as <-|].
      destruct (String.eqb _ "y"); [by injection Hm as <-|discriminate Hm].
    + discriminate Hm.
Qed.

Lemma selected_instruction_witness :
  @None string = None
  /\ StatementAst (mkInstruction (AbsoluteWithLabelIndexedInstruction "STA" "y" 4) 0x99 3)
     = AbsoluteWithLabelIndexedInstruction "STA" "y" 4
  /\ 0 <= OpCode (mkInstruction (AbsoluteWithLabelIndexedInstruction "STA" "y" 4) 0x99 3)
       <= 255
  /\ OpSize (mkInstruction (AbsoluteWithLabelIndexedInstruction "STA" "y" 4) 0x99 3) = 3.
Proof.
  apply (selected_instruction_wellformed (fun s => s)
           (AbsoluteWithLabelIndexedInstruction "STA" "y" 4)
           (mkInstruction (AbsoluteWithLabelIndexedInstruction "STA" "y" 4) 0x99 3)
           None).
  reflexivity.
Defined.

(** X5.  The encoding can be decoded: two statements that select the same
    opcode were looked up in the same addressing mode under the same
    lower-cased mnemonic, and have the same size.  No opcode occurs twice
    in the four tables. *)
Theorem opcode_determines_instruction (u : string -> string)
    (s1 s2 : InstructionStatement) (i1 i2 : Instruction) (e1 e2 : option string) :
  compileInstruction u s1 = Done (Some i1, e1) ->
  compileInstruction u s2 = Done (Some i2, e2) ->
  OpCode i1 = OpCode i2 ->
  modeOf u s1 = modeOf u s2
  /\ ToLower u (OpName s1) = ToLower u (OpName s2)
  /\ OpSize i1 = OpSize i2.
Proof.
  intros H1 H2 E.
  destruct (compileInstruction_row u s1 i1 e1 H1) as (_ & _ & m1 & Hm1 & Hz1 & Hr1).
  destruct (compileInstruction_row u s2 i2 e2 H2) as (_ & _ & m2 & Hm2 & Hz2 & Hr2).
  apply row_in_allEntries in Hr1, Hr2.
  pose proof (NoDup_map_inj (fun r : AddressingMode * (string * Z) => r.2.2)
                allEntries _ _ allEntries_opcodes_NoDup Hr1 Hr2 E) as Heq.
  injection Heq as -> Hk _.
  split; [by rewrite Hm1, Hm2|]. split; [exact Hk|]. by rewrite Hz1, Hz2.
Qed.

Lemma opcode_determines_witness :
  modeOf (fun s => s) (ImmediateInstruction "LDA" 1)
  = modeOf (fun s => s) (ImmediateInstruction "lda" 9)
  /\ ToLower (fun s => s) (OpName (ImmediateInstruction "LDA" 1))
     = ToLower (fun s => s) (OpName (ImmediateInstruction "lda" 9))
  /\ OpSize (mkInstruction (ImmediateInstruction "LDA" 1) 0xa9 2)
     = OpSize (mkInstruction (ImmediateInstruction "lda" 9) 0xa9 2).
Proof.
  apply (opcode_determines_instruction (fun s => s)
           (ImmediateInstruction "LDA" 1) (ImmediateInstruction "lda" 9)
           (mkInstruction (ImmediateInstruction "LDA" 1) 0xa9 2)
           (mkInstruction (ImmediateInstruction "lda" 9) 0xa9 2) None None);
    reflexivity.
Defined.

End ProgExtra.

(** * Further properties of the lowering *)

Module LoweringExtra.
Import GoStrings Lowering LoweringFacts.

(** The state [Compile] returns (the fresh state if it panics). *)
Definition compiled (env : Backend) (p : Program) (filename : string) : Compilation :=
  match Compile env p filename with
  | Done c => c
  | Panic _ => NewCompilation p
  end.

(** Three labels, one per vector, and no instruction. *)
Definition labelsOnly : Program :=
  mkProgram
    [LabeledStatement "nmi"; LabeledStatement "reset"; LabeledStatement "irq"]
    (list_to_map
       [(0xfffa, DataWordStatement [LabelCall "nmi"]);
        (0xfffc, DataWordStatement [LabelCall "reset"]);
        (0xfffe, DataWordStatement [LabelCall "irq"])]).

Lemma compiled_threeVectors :
  Compile acceptingBackend threeVectors "out.bc"
  = Done (compiled acceptingBackend threeVectors "out.bc").
Proof. vm_compute. reflexivity. Qed.

Lemma compiled_byteAtReset :
  Compile acceptingBackend byteAtReset "out.bc"
  = Done (compiled acceptingBackend byteAtReset "out.bc").
Proof. vm_compute. reflexivity. Qed.

Lemma compiled_labelsOnly :
  Compile acceptingBackend labelsOnly "out.bc"
  = Done (compiled acceptingBackend labelsOnly "out.bc").
Proof. vm_compute. reflexivity. Qed.

(** ** The data pass *)

(** The warning a data statement draws when no label is open. *)
Definition trashWarning (n : Node) : list string :=
  match n with
  | DataStatement _ Offset => ["trashing data at 0x" +:+ fmt_04x Offset]
  | _ => []
  end.

Lemma set_Warnings_same c : set_Warnings (Warnings c) c = c.
Proof. by destruct c. Qed.

(** X6.  While no label is open, data statements are thrown away: each
    adds its warning, with its offset, in source order, and nothing else
    changes: no byte reaches a buffer, the module or the error list. *)
Theorem unlabelled_data_is_trashed (c : Compilation) (ds : list Node) :
  mode c = dataStmtMode ->
  currentLabel c = "" ->
  forallb isDataStatement ds = true ->
  walk ds c = set_Warnings (Warnings c ++ flat_map trashWarning ds) c.
Proof.
  revert c. induction ds as [|d r IH]; intros c Hm Hl Hd.
  - cbn. rewrite app_nil_r. symmetry. apply set_Warnings_same.
  - cbn in Hd. apply andb_true_iff in Hd as [Hd Hr].
    destruct d as [items off| | | |]; try discriminate Hd.
    cbn [walk]. unfold VisitEnd, Visit. rewrite Hm. cbn [visitForDataStmts].
    rewrite dataAddStmt_trashes by exact Hl.
    rewrite IH; [|by destruct c|by destruct c|exact Hr].
    destruct c; cbn. by rewrite <- app_assoc.
Qed.

Lemma unlabelled_data_witness :
  walk [DataStatement [IntegerDataItem 1] 0x8000;
        DataStatement [StringDataItem "ab"] 0x8001]
    (NewCompilation (mkProgram [] ∅))
  = set_Warnings
      ([] ++ flat_map trashWarning
               [DataStatement [IntegerDataItem 1] 0x8000;
                DataStatement [StringDataItem "ab"] 0x8001])
      (NewCompilation (mkProgram [] ∅)).
Proof.
  apply (unlabelled_data_is_trashed (NewCompilation (mkProgram [] ∅))
           [DataStatement [IntegerDataItem 1] 0x8000;
            DataStatement [StringDataItem "ab"] 0x8001]); reflexivity.
Defined.

(** X7.  The traversal never closes the last buffer: a label followed by
    data statements up to the end of the tree has its bytes in the open
    buffer, but gets no global and no entry in the label-to-global map. *)
Theorem trailing_data_is_not_emitted (p : Program) (pre ds : list Node) (L : string) :
  Ast p = pre ++ LabeledStatement L :: ds ->
  L <> "" ->
  forallb isDataStatement ds = true ->
  let c := walk pre (set_mode dataStmtMode (NewCompilation p)) in
  globals (mod_ (dataPass p)) = globals (mod_ (dataStop c))
  /\ labeledData (dataPass p) = labeledData (dataStop c)
  /\ currentLabel (dataPass p) = L
  /\ currentValue (dataPass p) = flat_map nodeBytes ds.
Proof.
  intros HA HL Hds c. unfold dataPass. rewrite HA, walk_app. fold c.
  assert (Hm : mode c = dataStmtMode).
  { pose proof (walk_data_fields pre (set_mode dataStmtMode (NewCompilation p)) eq_refl)
      as Hf. unfold codeFields in Hf. fold c in Hf. cbn in Hf. congruence. }
  assert (Hm0 : mode (dataStop c) = dataStmtMode).
  { pose proof (dataStop_fields c) as Hf. unfold codeFields in Hf. congruence. }
  assert (E : walk (LabeledStatement L :: ds) c
              = set_currentValue (flat_map nodeBytes ds) (dataStart L (dataStop c))).
  { cbn [walk]. unfold VisitEnd, Visit. rewrite Hm. cbn [visitForDataStmts].
    rewrite walk_data_run; [|by destruct (dataStop c)|by destruct (dataStop c)|exact Hds].
    by destruct (dataStop c). }
  rewrite E. by destruct (dataStop c).
Qed.

Lemma trailing_data_witness :
  globals (mod_ (dataPass (mkProgram
     [Instruction ImpliedInstruction; LabeledStatement "tail";
      DataStatement [IntegerDataItem 7] 0] ∅)))
  = globals (mod_ (dataStop (walk [Instruction ImpliedInstruction]
       (set_mode dataStmtMode (NewCompilation (mkProgram
          [Instruction ImpliedInstruction; LabeledStatement "tail";
           DataStatement [IntegerDataItem 7] 0] ∅))))))
  /\ labeledData (dataPass (mkProgram
       [Instruction ImpliedInstruction; LabeledStatement "tail";
        DataStatement [IntegerDataItem 7] 0] ∅))
     = labeledData (dataStop (walk [Instruction ImpliedInstruction]
         (set_mode dataStmtMode (NewCompilation (mkProgram
            [Instruction ImpliedInstruction; LabeledStatement "tail";
             DataStatement [IntegerDataItem 7] 0] ∅)))))
  /\ currentLabel (dataPass (mkProgram
       [Instruction ImpliedInstruction; LabeledStatement "tail";
        DataStatement [IntegerDataItem 7] 0] ∅)) = "tail"
  /\ currentValue (dataPass (mkProgram
       [Instruction ImpliedInstruction; LabeledStatement "tail";
        DataStatement [IntegerDataItem 7] 0] ∅))
     = flat_map nodeBytes [DataStatement [IntegerDataItem 7] 0].
Proof.
  apply (trailing_data_is_not_emitted
           (mkProgram [Instruction ImpliedInstruction; LabeledStatement "tail";
                       DataStatement [IntegerDataItem 7] 0] ∅)
           [Instruction ImpliedInstruction] [DataStatement [IntegerDataItem 7] 0]
           "tail"); [reflexivity|discriminate|reflexivity].
Defined.

(** X16.  In the data pass a statement that is neither a data statement
    nor a labeled statement closes the open buffer whenever that buffer
    holds a byte: afterwards no label is open.  The one case in which a
    label stays open is an open label over an empty buffer, and then the
    statement changes nothing at all. *)
Theorem other_statement_closes_filled_buffer (c : Compilation) (n : Node) :
  mode c = dataStmtMode ->
  isDataStatement n = false ->
  isLabeledStatement n = false ->
  (currentLabel (Visit n c) = ""
   \/ (currentLabel c <> "" /\ currentValue c = [] /\ Visit n c = c))
  /\ (currentValue c <> [] -> currentLabel (Visit n c) = "").
Proof.
  intros Hm Hd Hl. unfold Visit. rewrite Hm.
  assert (E : visitForDataStmts n c = dataStop c).
  { by destruct n as [items off|items|L|k|]. }
  rewrite E. split; [apply dataStop_currentLabel|].
  intros Hv. destruct (dataStop_currentLabel c) as [H|(_ & H & _)]; done.
Qed.

Lemma other_statement_witness :
  (currentLabel (Visit (Instruction ImpliedInstruction)
                   (set_currentValue ["a"%char]
                      (set_currentLabel "L" (NewCompilation (mkProgram [] ∅))))) = ""
   \/ (currentLabel (set_currentValue ["a"%char]
                       (set_currentLabel "L" (NewCompilation (mkProgram [] ∅)))) <> ""
       /\ currentValue (set_currentValue ["a"%char]
                          (set_currentLabel "L" (NewCompilation (mkProgram [] ∅)))) = []
       /\ Visit (Instruction ImpliedInstruction)
            (set_currentValue ["a"%char]
               (set_currentLabel "L" (NewCompilation (mkProgram [] ∅))))
          = set_currentValue ["a"%char]
              (set_currentLabel "L" (NewCompilation (mkProgram [] ∅)))))
  /\ (currentValue (set_currentValue ["a"%char]
                      (set_currentLabel "L" (NewCompilation (mkProgram [] ∅)))) <> [] ->
      currentLabel (Visit (Instruction ImpliedInstruction)
                      (set_currentValue ["a"%char]
                         (set_currentLabel "L" (NewCompilation (mkProgram [] ∅))))) = "").
Proof.
  apply (other_statement_closes_filled_buffer
           (set_currentValue ["a"%char]
              (set_currentLabel "L" (NewCompilation (mkProgram [] ∅))))
           (Instruction ImpliedInstruction)); reflexivity.
Defined.

(** *** What the data pass leaves in the module *)

(** The globals are private, non-empty and named after labels of [names];
    the label-to-global map points at globals of the right name; the open
    label, if any, is one of [names]; the warnings are those of data
    statements of [nodes]. *)
Definition dataOk (names : list string) (nodes : list Node) (c : Compilation) : Prop :=
  Forall (fun g => gLinkage g = PrivateLinkage /\ gInit g <> []
                   /\ gName g <> "" /\ gName g ∈ names) (globals (mod_ c))
  /\ (forall L i, labeledData c !! L = Some i ->
        exists g, globals (mod_ c) !! i = Some g /\ gName g = L)
  /\ (currentLabel c = "" \/ currentLabel c ∈ names)
  /\ Forall (fun w => exists d, d ∈ nodes /\ trashWarning d = [w]) (Warnings c).

Lemma dataStop_ok names nodes c : dataOk names nodes c -> dataOk names nodes (dataStop c).
Proof.
  intros (Hg & Hl & Hc & Hw).
  destruct (decide (currentLabel c = "")) as [E|E].
  { by rewrite dataStop_closed. }
  destruct (decide (currentValue c = [])) as [Ev|Ev].
  { by rewrite dataStop_empty. }
  rewrite dataStop_open by done. unfold dataOk. cbn.
  destruct Hc as [Hc|Hc]; [done|].
  split; [|split; [|split; [by left|exact Hw]]].
  - apply Forall_app. split; [exact Hg|]. by repeat constructor.
  - intros L i. destruct (decide (currentLabel c = L)) as [<-|Hne].
    + rewrite lookup_insert_eq. intros [= <-].
      exists (mkGlobal (currentLabel c) PrivateLinkage (currentValue c)).
      split; [|reflexivity].
      rewrite lookup_app_r by lia. by rewrite Nat.sub_diag.
    + rewrite lookup_insert_ne by done. intros Hi.
      destruct (Hl L i Hi) as (g & Hgi & Hn). exists g. split; [|exact Hn].
      rewrite lookup_app_l; [exact Hgi|]. by apply lookup_lt_Some in Hgi.
Qed.

Lemma visitForDataStmts_ok names nodes n c :
  n ∈ nodes ->
  (forall L, n = LabeledStatement L -> L ∈ names) ->
  dataOk names nodes c -> dataOk names nodes (visitForDataStmts n c).
Proof.
  intros Hin Hn Hok.
  destruct n as [items off|items|L|k|]; cbn [visitForDataStmts];
    try by apply dataStop_ok.
  - unfold dataAddStmt. destruct Hok as (Hg & Hl & Hc & Hw).
    destruct (String.length (currentLabel c) =? 0)%nat.
    + unfold dataOk. cbn. split; [exact Hg|]. split; [exact Hl|]. split; [exact Hc|].
      apply Forall_app. split; [exact Hw|]. constructor; [|constructor].
      by exists (DataStatement items off).
    + rewrite dataAddItems_appends. by unfold dataOk.
  - destruct (dataStop_ok names nodes c Hok) as (Hg & Hl & Hc & Hw).
    unfold dataOk. cbn. split; [exact Hg|]. split; [exact Hl|]. split; [|exact Hw].
    right. by apply Hn.
Qed.

Lemma walk_data_ok names nodes visited : forall c,
  mode c = dataStmtMode ->
  (forall n, n ∈ visited -> n ∈ nodes) ->
  (forall L, LabeledStatement L ∈ visited -> L ∈ names) ->
  dataOk names nodes c -> dataOk names nodes (walk visited c).
Proof.
  induction visited as [|n r IH]; intros c Hm Hsub Hn Hok; [done|].
  cbn [walk]. unfold VisitEnd, Visit. rewrite Hm.
  apply IH.
  - pose proof (visitForDataStmts_fields n c) as Hf. unfold codeFields in Hf. congruence.
  - intros n' Hn'. apply Hsub. by right.
  - intros L HL. apply Hn. by right.
  - apply visitForDataStmts_ok; [apply Hsub; by left| |exact Hok].
    intros L ->. apply Hn. by left.
Qed.

Lemma labelNames_elem L nodes : LabeledStatement L ∈ nodes -> L ∈ labelNames nodes.
Proof.
  intros H. unfold labelNames. apply list_elem_of_In, in_flat_map.
  exists (LabeledStatement L). split; [by apply list_elem_of_In|]. by left.
Qed.

Lemma dataPass_ok p : dataOk (labelNames (Ast p)) (Ast p) (dataPass p).
Proof.
  unfold dataPass.
  apply (walk_data_ok (labelNames (Ast p)) (Ast p) (Ast p));
    [done|done|intros L; apply labelNames_elem|].
  unfold dataOk. cbn. split; [constructor|]. split; [|split; [by left|constructor]].
  intros L i H. by rewrite lookup_empty in H.
Qed.

(** [hookUp] changes the block [Entry], the error list and the log of
    backend calls only. *)
Lemma hookUp_tables env filename entry c :
  globals (mod_ (hookUp env filename entry c)) = globals (mod_ c)
  /\ Warnings (hookUp env filename entry c) = Warnings c
  /\ labeledData (hookUp env filename entry c) = labeledData c.
Proof.
  unfold hookUp.
  destruct (nmiBlock c); [|done].
  destruct (resetBlock c); [|done].
  destruct (irqBlock c); [|done].
  assert (G : globals (mod_ (CreateBr n0 (SetInsertPointAtEnd entry c)))
              = globals (mod_ c)) by done.
  destruct (VerifyModule env _); [done|].
  destruct (NewJITCompiler env _); [done|].
  destruct (Create env _); [done|].
  destruct (WriteBitcodeToFile env _); [done|].
  destruct (Close env); done.
Qed.

Lemma Compile_tables env p filename c :
  Compile env p filename = Done c ->
  globals (mod_ c) = globals (mod_ (dataPass p))
  /\ Warnings c = Warnings (dataPass p)
  /\ labeledData c = labeledData (dataPass p).
Proof.
  intros H.
  destruct (setUpEntryPoints p (prologue (dataPass p)).1) as [c1|m] eqn:E.
  2:{ rewrite Compile_unfold, E in H. discriminate H. }
  rewrite (Compile_Done env p filename c1 E) in H. injection H as <-.
  destruct (prologue_start p) as (_ & _ & (L0 & G0 & W0) & _).
  destruct (setUpEntryPoints_facts p _ c1 E) as (_ & (L1 & G1 & W1) & _).
  destruct (afterCodePass p c1 E) as (_ & Hi & Hs & _).
  destruct Hs as ((L2 & _ & _ & _ & _ & _ & _ & G2 & W2) & _).
  destruct (closeFinalBlock_facts _ Hi)
    as (_ & _ & _ & _ & _ & _ & _ & (L3 & _ & _ & _ & _ & _ & _ & G3 & W3)).
  destruct (hookUp_tables env filename 0
              (closeFinalBlock (codePass p c1))) as (G4 & W4 & L4).
  rewrite G4, W4, L4, G3, W3, L3, G2, W2, L2. cbn.
  by rewrite G1, W1, L1, G0, W0, L0.
Qed.

(** X8.  In the module [Compile] returns, every global is private, holds
    at least one byte and bears the non-empty name of a label of the
    program; and every entry of the label-to-global map points at a global
    of that label's name. *)
Theorem data_globals_wellformed (env : Backend) (p : Program) (filename : string)
    (c : Compilation) :
  Compile env p filename = Done c ->
  Forall (fun g => gLinkage g = PrivateLinkage /\ gInit g <> []
                   /\ gName g <> "" /\ gName g ∈ labelNames (Ast p))
    (globals (mod_ c))
  /\ (forall L i, labeledData c !! L = Some i ->
        exists g, globals (mod_ c) !! i = Some g /\ gName g = L).
Proof.
  intros H. destruct (Compile_tables env p filename c H) as (-> & _ & ->).
  destruct (dataPass_ok p) as (Hg & Hl & _). by split.
Qed.

Lemma data_globals_witness :
  Forall (fun g => gLinkage g = PrivateLinkage /\ gInit g <> []
                   /\ gName g <> "" /\ gName g ∈ labelNames (Ast threeVectors))
    (globals (mod_ (compiled acceptingBackend threeVectors "out.bc")))
  /\ (forall L i,
        labeledData (compiled acceptingBackend threeVectors "out.bc") !! L = Some i ->
        exists g,
          globals (mod_ (compiled acceptingBackend threeVectors "out.bc")) !! i = Some g
          /\ gName g = L).
Proof.
  apply (data_globals_wellformed acceptingBackend threeVectors "out.bc"
           (compiled acceptingBackend threeVectors "out.bc")).
  exact compiled_threeVectors.
Defined.



(** ** The code pass *)

(** The error the stub [Compile] method of an instruction node reports. *)
Definition stubError (n : Node) : list string :=
  match n with
  | Instruction k => [kindName k +:+ " lacks Compile() implementation"]
  | _ => []
  end.

Lemma LabeledStatementCompile_errors L c :
  Errors (LabeledStatementCompile L c) = Errors c.
Proof.
  destruct (labeledData c !! L) eqn:Hd.
  - by rewrite LabeledStatementCompile_data by (by rewrite Hd).
  - by destruct (LabeledStatementCompile_code L c Hd) as (_ & -> & _).
Qed.

(** X10.  The code pass reports every instruction statement once, in source
    order, as lacking a [Compile] implementation, and adds no other error:
    labels and data statements never fail. *)
Theorem instructions_reported_as_unimplemented (p : Program) (c : Compilation) :
  Errors (codePass p c) = Errors c ++ flat_map stubError (Ast p).
Proof.
  unfold codePass.
  change (Errors c) with (Errors (set_mode compileMode c)).
  assert (Hm : mode (set_mode compileMode c) = compileMode) by done.
  revert Hm. generalize (set_mode compileMode c) as c0. generalize (Ast p) as nodes.
  induction nodes as [|n r IH]; intros c0 Hm.
  - cbn. by rewrite app_nil_r.
  - cbn [walk flat_map]. unfold VisitEnd, Visit. rewrite Hm.
    rewrite IH.
    + rewrite app_assoc. f_equal.
      destruct n as [items off|items|L|k|]; cbn [visitForCompile stubError];
        rewrite ?app_nil_r; try done.
      apply LabeledStatementCompile_errors.
    + destruct (visitForCompile_steps n c0) as ((_ & _ & _ & _ & _ & -> & _) & _).
      exact Hm.
Qed.

(** ** The entry-point look-ups *)

(** Some vector holds a double-byte declaration without any item. *)
Definition emptyVector (p : Program) : bool :=
  entryPointEmpty p 0xfffa || entryPointEmpty p 0xfffc || entryPointEmpty p 0xfffe.

(** The label a vector names: the first item of its double-byte
    declaration when that is a label reference, else none. *)
Definition vectorLabel (p : Program) (addr : Z) : string :=
  match offsets p !! addr with
  | Some (DataWordStatement (LabelCall LabelName :: _)) => LabelName
  | _ => ""
  end.

(** The errors of the three look-ups, in the order of the vectors. *)
Definition lookupErrors (p : Program) : list string :=
  flat_map (fun addr => match entryPointError p addr with
                        | Some msg => [msg]
                        | None => []
                        end) vectors.

Lemma setUpEntryPoint_Panic p addr store c :
  entryPointEmpty p addr = true ->
  setUpEntryPoint p addr store c = Panic "runtime error: index out of range".
Proof.
  unfold setUpEntryPoint, entryPointEmpty.
  destruct (offsets p !! addr) as [[items off|[|[v|t|l] items]|L|k|]|];
    intros H; try discriminate H. reflexivity.
Qed.

Lemma setUpEntryPoints_Panic p c :
  emptyVector p = true ->
  setUpEntryPoints p c = Panic "runtime error: index out of range".
Proof.
  unfold emptyVector, setUpEntryPoints. intros H.
  destruct (entryPointEmpty p 0xfffa) eqn:E1.
  { by rewrite setUpEntryPoint_Panic. }
  destruct (setUpEntryPoint_total p 0xfffa set_nmiLabelName c E1) as [c1 ->].
  cbn [obind].
  destruct (entryPointEmpty p 0xfffc) eqn:E2.
  { by rewrite setUpEntryPoint_Panic. }
  destruct (setUpEntryPoint_total p 0xfffc set_resetLabelName c1 E2) as [c2 ->].
  cbn [obind]. cbn in H. by rewrite setUpEntryPoint_Panic.
Qed.

Lemma emptyVector_false p : emptyVector p = false -> noEmptyVector p.
Proof.
  unfold emptyVector, noEmptyVector. intros H.
  apply orb_false_iff in H as [H H3]. apply orb_false_iff in H as [H1 H2]. done.
Qed.

(** X11.  [Compile] panics exactly when one of the three vectors holds a
    double-byte declaration with no item (its first item is indexed
    unchecked), with the index-out-of-range message; on every other
    program it returns a [Compilation]. *)
Theorem Compile_panics_iff_empty_vector (env : Backend) (p : Program)
    (filename : string) :
  (Compile env p filename = Panic "runtime error: index out of range"
   <-> emptyVector p = true)
  /\ (emptyVector p = false <-> exists c, Compile env p filename = Done c).
Proof.
  destruct (emptyVector p) eqn:E.
  - assert (H : Compile env p filename = Panic "runtime error: index out of range").
    { rewrite Compile_unfold, setUpEntryPoints_Panic by exact E. reflexivity. }
    rewrite H. split; [done|]. split; [done|]. intros [c Hc]. discriminate Hc.
  - destruct (setUpEntryPoints_total p (prologue (dataPass p)).1
                (emptyVector_false p E)) as [c1 H1].
    rewrite (Compile_Done env p filename c1 H1).
    split; [split; intros H; discriminate H|]. split; [by eexists|done].
Qed.

Lemma prologue_errors p :
  Errors (prologue (dataPass p)).1 = [].
Proof.
  pose proof (dataPass_fields p) as Hf. unfold codeFields in Hf.
  destruct (dataPass p) as [W E p0 [nm gl fs blks] b ld cv cl md bbs cur nl rl il nb rb ib cs].
  cbn in Hf. by simplify_eq.
Qed.

Lemma setUpEntryPoint_result p addr store c c' :
  setUpEntryPoint p addr store c = Done c' ->
  c' = match entryPointError p addr with
       | Some msg => addError msg c
       | None => store (vectorLabel p addr) c
       end.
Proof.
  unfold setUpEntryPoint, entryPointError, vectorLabel.
  destruct (offsets p !! addr) as [[items off|[|[v|t|l] items]|L|k|]|];
    intros H; try discriminate H; by injection H as <-.
Qed.

Lemma entryPointError_vectorLabel p addr msg :
  entryPointError p addr = Some msg -> vectorLabel p addr = "".
Proof.
  unfold entryPointError, vectorLabel.
  destruct (offsets p !! addr) as [[items off|[|[v|t|l] items]|L|k|]|];
    intros H; try discriminate H; reflexivity.
Qed.

(** What the three look-ups leave behind: the label each vector names
    (none when its look-up failed) and the errors in vector order. *)
Lemma setUpEntryPoints_result p c c' :
  setUpEntryPoints p c = Done c' ->
  nmiLabelName c = "" -> resetLabelName c = "" -> irqLabelName c = "" ->
  nmiLabelName c' = vectorLabel p 0xfffa
  /\ resetLabelName c' = vectorLabel p 0xfffc
  /\ irqLabelName c' = vectorLabel p 0xfffe
  /\ Errors c' = Errors c ++ lookupErrors p.
Proof.
  unfold setUpEntryPoints. intros H Nn Nr Nq.
  destruct (setUpEntryPoint p 0xfffa set_nmiLabelName c) as [c1|] eqn:E1;
    [|discriminate H]. cbn [obind] in H.
  destruct (setUpEntryPoint p 0xfffc set_resetLabelName c1) as [c2|] eqn:E2;
    [|discriminate H]. cbn [obind] in H.
  apply setUpEntryPoint_result in E1, E2, H. subst c' c2 c1.
  unfold lookupErrors, vectors. cbn [flat_map].
  destruct (entryPointError p 0xfffa) as [m1|] eqn:F1;
    destruct (entryPointError p 0xfffc) as [m2|] eqn:F2;
    destruct (entryPointError p 0xfffe) as [m3|] eqn:F3;
    rewrite ?(entryPointError_vectorLabel p _ _ F1),
            ?(entryPointError_vectorLabel p _ _ F2),
            ?(entryPointError_vectorLabel p _ _ F3);
    cbn; rewrite ?Nn, ?Nr, ?Nq, ?app_nil_r, <- ?app_assoc; done.
Qed.

(** ** Hooking up and the backend *)

(** The backend calls of a run that goes all the way. *)
Definition backendCalls (filename : string) : list BackendCall :=
  [CallVerifyModule; CallNewJITCompiler; CallPassRun; CallDump;
   CallCreate filename; CallWriteBitcodeToFile; CallClose].

Ltac refute_member H :=
  repeat (apply elem_of_cons in H as [H|H]; [try discriminate H|]);
  try (by apply elem_of_nil in H).

Lemma hookUp_outcome env filename entry c :
  calls c = [] ->
  (exists final, Errors (hookUp env filename entry c) = Errors c ++ final
     /\ (length final <= 1)%nat
     /\ (final = [] -> calls (hookUp env filename entry c) = backendCalls filename))
  /\ calls (hookUp env filename entry c) `prefix_of` backendCalls filename
  /\ (CallCreate filename ∈ calls (hookUp env filename entry c) ->
      VerifyModule env (mod_ (hookUp env filename entry c)) = None
      /\ NewJITCompiler env (mod_ (hookUp env filename entry c)) = None)
  /\ (CallClose ∈ calls (hookUp env filename entry c) ->
      Create env filename = None
      /\ WriteBitcodeToFile env (mod_ (hookUp env filename entry c)) = None).
Proof.
  intros Hc.
  destruct c as [W E p [nm gl fs blks] b ld cv cl md bbs cur nl rl il nb rb ib cs].
  cbn in Hc. subst cs.
  destruct env as [V J Cr Wr Cl].
  unfold hookUp, backendCalls, CreateBr, emit, SetInsertPointAtEnd, call, addError.
  cbn -[alter].
  destruct nb as [n|]; [destruct rb as [r|]; [destruct ib as [i|]|]|]; cbn -[alter].
  2,3,4: split; [eexists; split; [reflexivity|split; [cbn; lia|discriminate]]|];
         split; [by eexists|]; split; intros H; by apply elem_of_nil in H.
  destruct (V _) as [ev|] eqn:EV; cbn -[alter].
  { split; [exists [ev]; split; [reflexivity|split; [cbn; lia|discriminate]]|].
    split; [by eexists|]. split; intros H; refute_member H. }
  destruct (J _) as [ej|] eqn:EJ; cbn -[alter].
  { split; [exists [ej]; split; [reflexivity|split; [cbn; lia|discriminate]]|].
    split; [by eexists|]. split; intros H; refute_member H. }
  destruct (Cr filename) as [ec|] eqn:EC; cbn -[alter].
  { split; [exists [ec]; split; [reflexivity|split; [cbn; lia|discriminate]]|].
    split; [by eexists|]. split; [by intros _|]. intros H; refute_member H. }
  destruct (Wr _) as [ew|] eqn:EW; cbn -[alter].
  { split; [exists [ew]; split; [reflexivity|split; [cbn; lia|discriminate]]|].
    split; [by eexists|]. split; [by intros _|]. intros H; refute_member H. }
  destruct Cl as [el|]; cbn -[alter].
  { split; [exists [el]; split; [reflexivity|split; [cbn; lia|discriminate]]|].
    split; [by exists []|]. split; by intros _. }
  split; [exists []; split; [by rewrite app_nil_r|split; [cbn; lia|done]]|].
  split; [by exists []|]. split; by intros _.
Qed.

Lemma Compile_parts env p filename c :
  Compile env p filename = Done c ->
  exists c1,
    setUpEntryPoints p (prologue (dataPass p)).1 = Done c1
    /\ c = hookUp env filename 0 (closeFinalBlock (codePass p c1))
    /\ calls (closeFinalBlock (codePass p c1)) = []
    /\ Errors (closeFinalBlock (codePass p c1))
       = lookupErrors p ++ flat_map stubError (Ast p)
    /\ nmiLabelName c1 = vectorLabel p 0xfffa
    /\ resetLabelName c1 = vectorLabel p 0xfffc
    /\ irqLabelName c1 = vectorLabel p 0xfffe.
Proof.
  intros H.
  destruct (setUpEntryPoints p (prologue (dataPass p)).1) as [c1|m] eqn:E.
  2:{ rewrite Compile_unfold, E in H. discriminate H. }
  rewrite (Compile_Done env p filename c1 E) in H. injection H as <-.
  exists c1. split; [reflexivity|]. split; [reflexivity|].
  destruct (afterCodePass p c1 E)
    as (_ & Hi & _ & _ & _ & _ & _ & _ & _ & Hcalls & _).
  destruct (closeFinalBlock_facts _ Hi) as (_ & _ & _ & _ & _ & _ & Herr & _).
  destruct (prologue_start p) as (_ & _ & _ & Nn & Nr & Nq).
  destruct (setUpEntryPoints_result p _ c1 E Nn Nr Nq) as (Hn & Hr & Hq & He).
  split; [exact Hcalls|]. split; [|by split_and!].
  rewrite Herr, instructions_reported_as_unimplemented, He, prologue_errors.
  reflexivity.
Qed.

(** X12.  The error list [Compile] returns is made of three parts: the
    errors of the entry-point look-ups in vector order, then one
    lacks-implementation error per instruction statement in source order,
    then at most one final error (a missing entry point or a failed backend
    call); when there is no final error, all seven backend calls were made. *)
Theorem Compile_error_list (env : Backend) (p : Program) (filename : string)
    (c : Compilation) :
  Compile env p filename = Done c ->
  exists final,
    Errors c = lookupErrors p ++ flat_map stubError (Ast p) ++ final
    /\ (length final <= 1)%nat
    /\ (final = [] -> calls c = backendCalls filename).
Proof.
  intros H. destruct (Compile_parts env p filename c H)
    as (c1 & _ & -> & Hcalls & Herr & _).
  destruct (hookUp_outcome env filename 0 _ Hcalls)
    as ((final & Hf & Hlen & Hall) & _).
  exists final. split; [|by split].
  by rewrite Hf, Herr, <- app_assoc.
Qed.

Lemma Compile_error_list_witness :
  exists final,
    Errors (compiled acceptingBackend byteAtReset "out.bc")
    = lookupErrors byteAtReset ++ flat_map stubError (Ast byteAtReset) ++ final
    /\ (length final <= 1)%nat
    /\ (final = [] ->
        calls (compiled acceptingBackend byteAtReset "out.bc") = backendCalls "out.bc").
Proof.
  apply (Compile_error_list acceptingBackend byteAtReset "out.bc"
           (compiled acceptingBackend byteAtReset "out.bc")).
  exact compiled_byteAtReset.
Defined.

(** X13.  A module is written only once it is verified: the backend calls
    [Compile] makes are an initial part of verify, JIT, pass run, dump,
    create, write, close; the file is created only if verification and
    the JIT compiler accepted the returned module, and it is closed only
    if creating it and writing the module went through. *)
Theorem file_written_only_if_verified (env : Backend) (p : Program)
    (filename : string) (c : Compilation) :
  Compile env p filename = Done c ->
  calls c `prefix_of` backendCalls filename
  /\ (CallCreate filename ∈ calls c ->
      VerifyModule env (mod_ c) = None /\ NewJITCompiler env (mod_ c) = None)
  /\ (CallClose ∈ calls c ->
      Create env filename = None /\ WriteBitcodeToFile env (mod_ c) = None).
Proof.
  intros H. destruct (Compile_parts env p filename c H)
    as (c1 & _ & -> & Hcalls & _).
  by destruct (hookUp_outcome env filename 0 _ Hcalls) as (_ & Hp & Hv & Hw).
Qed.

Lemma file_written_witness :
  calls (compiled acceptingBackend threeVectors "out.bc") `prefix_of` backendCalls "out.bc"
  /\ (CallCreate "out.bc" ∈ calls (compiled acceptingBackend threeVectors "out.bc") ->
      VerifyModule acceptingBackend
        (mod_ (compiled acceptingBackend threeVectors "out.bc")) = None
      /\ NewJITCompiler acceptingBackend
           (mod_ (compiled acceptingBackend threeVectors "out.bc")) = None)
  /\ (CallClose ∈ calls (compiled acceptingBackend threeVectors "out.bc") ->
      Create acceptingBackend "out.bc" = None
      /\ WriteBitcodeToFile acceptingBackend
           (mod_ (compiled acceptingBackend threeVectors "out.bc")) = None).
Proof.
  apply (file_written_only_if_verified acceptingBackend threeVectors "out.bc"
           (compiled acceptingBackend threeVectors "out.bc")).
  exact compiled_threeVectors.
Defined.

(** X14.  [Compile] returns an empty error list only for a program
    without any instruction statement whose three vectors all hold a label
    reference; and then the module went through every backend call. *)
Theorem error_free_run (env : Backend) (p : Program) (filename : string)
    (c : Compilation) :
  Compile env p filename = Done c ->
  Errors c = [] ->
  (forall k, Instruction k ∉ Ast p)
  /\ (forall addr, addr ∈ vectors -> entryPointError p addr = None)
  /\ calls c = backendCalls filename.
Proof.
  intros H He. destruct (Compile_error_list env p filename c H)
    as (final & Hf & _ & Hall).
  rewrite He in Hf. symmetry in Hf.
  apply app_eq_nil in Hf as [Hl Hf]. apply app_eq_nil in Hf as [Hs Hfin].
  split_and!.
  - intros k Hk. apply list_elem_of_In in Hk.
    assert (Hin : In (kindName k +:+ " lacks Compile() implementation")
                    (flat_map stubError (Ast p))).
    { apply in_flat_map. exists (Instruction k). split; [exact Hk|by left]. }
    by rewrite Hs in Hin.
  - intros addr Ha. destruct (entryPointError p addr) as [msg|] eqn:E; [|done].
    assert (Hin : In msg (lookupErrors p)).
    { unfold lookupErrors. apply in_flat_map. exists addr.
      split; [by apply list_elem_of_In|]. rewrite E. by left. }
    by rewrite Hl in Hin.
  - by apply Hall.
Qed.

Lemma error_free_run_witness :
  (forall k, Instruction k ∉ Ast labelsOnly)
  /\ (forall addr, addr ∈ vectors -> entryPointError labelsOnly addr = None)
  /\ calls (compiled acceptingBackend labelsOnly "out.bc") = backendCalls "out.bc".
Proof.
  apply (error_free_run acceptingBackend labelsOnly "out.bc"
           (compiled acceptingBackend labelsOnly "out.bc")).
  - exact compiled_labelsOnly.
  - vm_compute. reflexivity.
Defined.

(** ** Which vectors get their block *)

(** How one traversal in compile mode sets the three vector blocks: the
    switch of [LabeledStatement.Compile] takes the first name that
    matches, so a name shared with an earlier vector never sets the later
    one. *)
Definition vectorSteps (nodes : list Node) (c c' : Compilation) : Prop :=
  (is_Some (nmiBlock c') <->
     is_Some (nmiBlock c) \/ nmiLabelName c ∈ codeLabels c nodes)
  /\ (is_Some (resetBlock c') <->
     is_Some (resetBlock c)
     \/ (resetLabelName c ∈ codeLabels c nodes
         /\ resetLabelName c <> nmiLabelName c))
  /\ (is_Some (irqBlock c') <->
     is_Some (irqBlock c)
     \/ (irqLabelName c ∈ codeLabels c nodes
         /\ irqLabelName c <> nmiLabelName c
         /\ irqLabelName c <> resetLabelName c)).

Lemma vectorSteps_none nodes c :
  codeLabels c nodes = [] -> vectorSteps nodes c c.
Proof.
  intros E. unfold vectorSteps. rewrite E.
  split_and!; (split; [by left|]); intros [H|H]; try done.
  - by apply elem_of_nil in H.
  - destruct H as [H _]. by apply elem_of_nil in H.
  - destruct H as [H _]. by apply elem_of_nil in H.
Qed.

Lemma vectorSteps_label L c :
  vectorSteps [LabeledStatement L] c (LabeledStatementCompile L c).
Proof.
  destruct (labeledData c !! L) eqn:Hd.
  { rewrite LabeledStatementCompile_data by (by rewrite Hd).
    apply vectorSteps_none. unfold codeLabels. cbn [labelNames flat_map app].
    by rewrite filter_cons_False by (by rewrite Hd). }
  assert (Hcl : codeLabels c [LabeledStatement L] = [L]).
  { unfold codeLabels. cbn [labelNames flat_map app].
    by rewrite filter_cons_True by done. }
  pose proof (LabeledStatementCompile_code L c Hd) as (_ & _ & H).
  unfold vectorSteps. rewrite Hcl, !list_elem_of_singleton.
  destruct (String.eqb_spec L (nmiLabelName c)) as [E1|E1];
    [| destruct (String.eqb_spec L (resetLabelName c)) as [E2|E2];
       [| destruct (String.eqb_spec L (irqLabelName c)) as [E3|E3]]];
    destruct H as (_ & _ & -> & -> & ->);
    split_and!; split; intros G; try (by left); try (by eexists);
    try (destruct G as [G|G]; [exact G|]);
    try (right; split_and!; congruence);
    try (right; congruence);
    try (destruct G as (G1 & G2 & G3)); try (destruct G as (G1 & G2));
    try congruence.
Qed.

Lemma codeLabels_cons c n rest :
  codeLabels c (n :: rest) = codeLabels c [n] ++ codeLabels c rest.
Proof. unfold codeLabels. by rewrite (labelNames_cons n rest), filter_app. Qed.

Lemma vectorSteps_trans n rest c c1 c2 :
  sameData c c1 ->
  vectorSteps [n] c c1 -> vectorSteps rest c1 c2 -> vectorSteps (n :: rest) c c2.
Proof.
  intros (Hld & Hnl & Hrl & Hil & _) (A1 & A2 & A3) (B1 & B2 & B3).
  unfold vectorSteps, codeLabels in *.
  rewrite Hld, Hnl, Hrl, Hil in *.
  rewrite (labelNames_cons n rest), filter_app. setoid_rewrite elem_of_app.
  rewrite B1, B2, B3, A1, A2, A3. clear. split_and!; tauto.
Qed.

Lemma walk_vectors nodes : forall c,
  mode c = compileMode -> vectorSteps nodes c (walk nodes c).
Proof.
  induction nodes as [|n rest IH]; intros c Hm.
  - by apply vectorSteps_none.
  - cbn [walk]. unfold VisitEnd, Visit. rewrite Hm.
    destruct (visitForCompile_steps n c) as (Hs & _).
    apply (vectorSteps_trans n rest c (visitForCompile n c)); [exact Hs| |].
    + destruct n as [items off|items|L|k|]; cbn [visitForCompile];
        try (by apply vectorSteps_none); [apply vectorSteps_label|].
      assert (H0 : vectorSteps [Instruction k] c c) by (by apply vectorSteps_none).
      exact H0.
    + apply IH. destruct Hs as (_ & _ & _ & _ & _ & -> & _). exact Hm.
Qed.

(** The labels of the program that own no data global after the first
    pass: the ones the second pass opens a block for. *)
Definition codeLabelsOf (p : Program) : list string :=
  filter (fun L => labeledData (dataPass p) !! L = None) (labelNames (Ast p)).

(** X15.  [Compile] gets as far as verifying the module exactly when the
    three vectors name labels of the program that own no data global and
    are pairwise different: the nmi label must be such a label, the reset
    label must be one other than the nmi label, and the irq label one other
    than both.  In every other case it stops with a missing-entry-point
    error before any backend call. *)
Theorem verification_reached_iff (env : Backend) (p : Program) (filename : string)
    (c : Compilation) :
  Compile env p filename = Done c ->
  (CallVerifyModule ∈ calls c <->
     vectorLabel p 0xfffa ∈ codeLabelsOf p
     /\ (vectorLabel p 0xfffc ∈ codeLabelsOf p
         /\ vectorLabel p 0xfffc <> vectorLabel p 0xfffa)
     /\ (vectorLabel p 0xfffe ∈ codeLabelsOf p
         /\ vectorLabel p 0xfffe <> vectorLabel p 0xfffa
         /\ vectorLabel p 0xfffe <> vectorLabel p 0xfffc))
  /\ (CallVerifyModule ∉ calls c ->
      calls c = [] /\ exists m, m ∈ missingEntryPoint /\ last (Errors c) = Some m).
Proof.
  intros H. destruct (Compile_parts env p filename c H)
    as (c1 & E & -> & Hcalls & _ & Nn & Nr & Nq).
  destruct (afterCodePass p c1 E)
    as (Hst & _ & _ & _ & _ & _ & Hn & Hr & Hq & _ & _ & _ & Hld & _).
  destruct Hst as (_ & _ & Sn & Sr & Sq & _).
  destruct (walk_vectors (Ast p) (set_mode compileMode c1) eq_refl) as (V1 & V2 & V3).
  fold (codePass p c1) in V1, V2, V3. cbn in V1, V2, V3.
  rewrite Sn in V1. rewrite Sr in V2. rewrite Sq in V3.
  rewrite Nn in V1, V2, V3. rewrite Nr in V2, V3. rewrite Nq in V3.
  assert (Hcl : codeLabels (set_mode compileMode c1) (Ast p) = codeLabelsOf p).
  { unfold codeLabels, codeLabelsOf. cbn. by rewrite Hld. }
  rewrite Hcl in V1, V2, V3. rewrite <- Hn in V1. rewrite <- Hr in V2. rewrite <- Hq in V3.
  set (c2 := closeFinalBlock (codePass p c1)) in *.
  assert (Hreach : CallVerifyModule ∈ calls (hookUp env filename 0 c2)
                   <-> is_Some (nmiBlock c2) /\ is_Some (resetBlock c2)
                       /\ is_Some (irqBlock c2)).
  { destruct (nmiBlock c2) as [n|] eqn:En.
    2:{ destruct (hookUp_missing env filename c2 (or_introl En)) as [-> _].
        rewrite Hcalls. split; [intros G; by apply elem_of_nil in G|].
        intros [[x G] _]. discriminate G. }
    destruct (resetBlock c2) as [r|] eqn:Er.
    2:{ destruct (hookUp_missing env filename c2 (or_intror (or_introl Er))) as [-> _].
        rewrite Hcalls. split; [intros G; by apply elem_of_nil in G|].
        intros [_ [[x G] _]]. discriminate G. }
    destruct (irqBlock c2) as [i|] eqn:Eq.
    2:{ destruct (hookUp_missing env filename c2 (or_intror (or_intror Eq))) as [-> _].
        rewrite Hcalls. split; [intros G; by apply elem_of_nil in G|].
        intros [_ [_ [x G]]]. discriminate G. }
    destruct (hookUp_resolved env filename 0 c2 n r i En Er Eq) as (_ & [rest ->] & _).
    rewrite Hcalls. split; [by eauto|]. intros _. by left. }
  split.
  - rewrite Hreach, V1, V2, V3.
    split; intros (G1 & G2 & G3).
    + destruct G1 as [[x G1]|G1]; [discriminate G1|].
      destruct G2 as [[x G2]|G2]; [discriminate G2|].
      destruct G3 as [[x G3]|G3]; [discriminate G3|]. done.
    + split_and!; by right.
  - intros Hno.
    assert (Hstop : nmiBlock c2 = None \/ resetBlock c2 = None \/ irqBlock c2 = None).
    { destruct (nmiBlock c2) as [n|] eqn:En; [|by left].
      destruct (resetBlock c2) as [r|] eqn:Er; [|by right; left].
      destruct (irqBlock c2) as [i|] eqn:Eq; [|by right; right].
      destruct Hno. apply Hreach. by eauto. }
    destruct (hookUp_missing env filename c2 Hstop) as [Hc Hm].
    split; [by rewrite Hc|exact Hm].
Qed.

Lemma verification_reached_witness :
  (CallVerifyModule ∈ calls (compiled acceptingBackend threeVectors "out.bc") <->
     vectorLabel threeVectors 0xfffa ∈ codeLabelsOf threeVectors
     /\ (vectorLabel threeVectors 0xfffc ∈ codeLabelsOf threeVectors
         /\ vectorLabel threeVectors 0xfffc <> vectorLabel threeVectors 0xfffa)
     /\ (vectorLabel threeVectors 0xfffe ∈ codeLabelsOf threeVectors
         /\ vectorLabel threeVectors 0xfffe <> vectorLabel threeVectors 0xfffa
         /\ vectorLabel threeVectors 0xfffe <> vectorLabel threeVectors 0xfffc))
  /\ (CallVerifyModule ∉ calls (compiled acceptingBackend threeVectors "out.bc") ->
      calls (compiled acceptingBackend threeVectors "out.bc") = []
      /\ exists m, m ∈ missingEntryPoint
           /\ last (Errors (compiled acceptingBackend threeVectors "out.bc")) = Some m).
Proof.
  apply (verification_reached_iff acceptingBackend threeVectors "out.bc"
           (compiled acceptingBackend threeVectors "out.bc")).
  exact compiled_threeVectors.
Defined.

End LoweringExtra.
